(** * core-js-101, [src/05-objects-tasks.js]

    A shallow embedding of the three exercises of the file and the
    properties of its specification:

    - [CssSelectorBuilder]: the class as a value (a record of two lists),
      every method a function returning either a new builder or the
      thrown [Error];
    - [Store]: the same class over an explicit object store, where
      [slice] allocates, [push] writes in place and [new] allocates an
      instance, with the simulation that ties it to the value model;
    - [Rect]: the [Rectangle] constructor and its arrow function;
    - [Json]: [fromJSON] over [Object.create] and [Object.assign]. *)

From Stdlib Require Import ZArith Lia.
From stdpp Require Import base list sorting strings gmap pretty.

Local Open Scope Z_scope.

(** ** What JavaScript gives the code *)

(** [throw new Error(message)], and the two errors the built-ins raise: a
    [TypeError] when a property of something that is no object is read, a
    [SyntaxError] from [JSON.parse]. *)
Inductive exn : Type :=
  | Error (message : string)
  | TypeError
  | SyntaxError.

(** A call either returns or throws. *)
Inductive completion (A : Type) : Type :=
  | Return (value : A)
  | Throw (e : exn).
Arguments Return {A} value.
Arguments Throw {A} e.

(** [x === n] and [x < n] where [x] is the result of [Array.prototype.find]
    on an array of numbers: a number, or [undefined] (here [None]).
    [undefined === n] is false, and [undefined < n] compares [NaN] with [n],
    which is false too. *)
Definition strict_eq (x : option Z) (n : Z) : bool :=
  match x with
  | Some m => m =? n
  | None => false
  end.

Definition less_than (x : option Z) (n : Z) : bool :=
  match x with
  | Some m => m <? n
  | None => false
  end.

(** [arr.join('')]. *)
Definition join (arr : list string) : string := String.concat EmptyString arr.

(** ** The class as a value *)

Module CssSelectorBuilder.

(** The two fields set by the constructor. *)
Record t : Type := new {
  callStack : list Z;
  resultsArr : list string
}.

Definition duplicate_message : string :=
  "Element, id and pseudo-element should not occur more then one time inside the selector".

Definition order_message : string :=
  "Selector parts should be arranged in the following order: element, id, class, attribute, pseudo-class, pseudo-element".

Definition element (this : t) (value : string) : completion t :=
  let callStack := this.(callStack) in
  let resultsArr := this.(resultsArr) in
  let checkCallStack := find (fun item => item <=? 6) callStack in
  if strict_eq checkCallStack 6 then Throw (Error duplicate_message)
  else if less_than checkCallStack 6 then Throw (Error order_message)
  else Return (new (callStack ++ [6]) (resultsArr ++ [value])).

Definition id (this : t) (value : string) : completion t :=
  let callStack := this.(callStack) in
  let resultsArr := this.(resultsArr) in
  let checkCallStack := find (fun item => item <=? 5) callStack in
  if strict_eq checkCallStack 5 then Throw (Error duplicate_message)
  else if less_than checkCallStack 5 then Throw (Error order_message)
  else Return (new (callStack ++ [5]) (resultsArr ++ ["#" +:+ value])).

Definition class (this : t) (value : string) : completion t :=
  let callStack := this.(callStack) in
  let resultsArr := this.(resultsArr) in
  let checkCallStack := find (fun item => item <? 4) callStack in
  if less_than checkCallStack 4 then Throw (Error order_message)
  else Return (new (callStack ++ [4]) (resultsArr ++ ["." +:+ value])).

Definition attr (this : t) (value : string) : completion t :=
  let callStack := this.(callStack) in
  let resultsArr := this.(resultsArr) in
  let checkCallStack := find (fun item => item <? 3) callStack in
  if less_than checkCallStack 3 then Throw (Error order_message)
  else Return (new (callStack ++ [3]) (resultsArr ++ ["[" +:+ value +:+ "]"])).

Definition pseudoClass (this : t) (value : string) : completion t :=
  let callStack := this.(callStack) in
  let resultsArr := this.(resultsArr) in
  let checkCallStack := find (fun item => item <? 2) callStack in
  if less_than checkCallStack 2 then Throw (Error order_message)
  else Return (new (callStack ++ [2]) (resultsArr ++ [":" +:+ value])).

Definition pseudoElement (this : t) (value : string) : completion t :=
  let callStack := this.(callStack) in
  let resultsArr := this.(resultsArr) in
  let checkCallStack := find (fun item => item <=? 1) callStack in
  if strict_eq checkCallStack 1 then Throw (Error duplicate_message)
  else if less_than checkCallStack 1 then Throw (Error order_message)
  else Return (new (callStack ++ [1]) (resultsArr ++ ["::" +:+ value])).

Definition stringify (this : t) : string :=
  let string := join this.(resultsArr) in
  string.

Definition combine (this selector1 : t) (combinator : string) (selector2 : t) : t :=
  let resultsArr := this.(resultsArr) in
  new [] (resultsArr ++ [stringify selector1 +:+ " " +:+ combinator +:+ " " +:+ stringify selector2]).

(** [const cssSelectorBuilder = new CssSelectorBuilder()]: both constructor
    parameters take their default, a fresh empty array. *)
Definition cssSelectorBuilder : t := new [] [].

End CssSelectorBuilder.

(** ** The vocabulary of the specification *)

(** The six add operations, named by the category they append. *)
Inductive category : Type :=
  | Element | Id | Class | Attribute | PseudoClass | PseudoElement.

(** The number each method pushes on [callStack]. *)
Definition rank (c : category) : Z :=
  match c with
  | Element => 6
  | Id => 5
  | Class => 4
  | Attribute => 3
  | PseudoClass => 2
  | PseudoElement => 1
  end.

(** The categories whose method has the [===] branch. *)
Definition singleton (c : category) : bool :=
  match c with
  | Element | Id | PseudoElement => true
  | Class | Attribute | PseudoClass => false
  end.

(** The string each method pushes on [resultsArr]. *)
Definition render (c : category) (value : string) : string :=
  match c with
  | Element => value
  | Id => "#" +:+ value
  | Class => "." +:+ value
  | Attribute => "[" +:+ value +:+ "]"
  | PseudoClass => ":" +:+ value
  | PseudoElement => "::" +:+ value
  end.

(** The test each method hands to [find]: [item <= rank] where the method
    has the [===] branch, [item < rank] where it has not. *)
Definition threshold (c : category) (item : Z) : bool :=
  if singleton c then item <=? rank c else item <? rank c.

(** The two errors of the class. *)
Definition DuplicateCategoryError : exn :=
  Error CssSelectorBuilder.duplicate_message.
Definition OrderViolationError : exn :=
  Error CssSelectorBuilder.order_message.

(** The rendered forms of a list of calls, one after the other with
    nothing in between. *)
Fixpoint concat_rendered (calls : list (category * string)) : string :=
  match calls with
  | [] => EmptyString
  | (c, value) :: rest => render c value +:+ concat_rendered rest
  end.

(** A method call [this.<c>(value)]. *)
Definition add (c : category) (this : CssSelectorBuilder.t) (value : string)
  : completion CssSelectorBuilder.t :=
  match c with
  | Element => CssSelectorBuilder.element this value
  | Id => CssSelectorBuilder.id this value
  | Class => CssSelectorBuilder.class this value
  | Attribute => CssSelectorBuilder.attr this value
  | PseudoClass => CssSelectorBuilder.pseudoClass this value
  | PseudoElement => CssSelectorBuilder.pseudoElement this value
  end.

(** A chain [this.<c1>(v1).<c2>(v2)...]: the first call that throws ends it. *)
Fixpoint chain (calls : list (category * string)) (this : CssSelectorBuilder.t)
  : completion CssSelectorBuilder.t :=
  match calls with
  | [] => Return this
  | (c, value) :: rest =>
      match add c this value with
      | Return next => chain rest next
      | Throw e => Throw e
      end
  end.

(** Each number is at most the one before it. *)
Fixpoint non_increasing (ranks : list Z) : bool :=
  match ranks with
  | x :: rest =>
      match rest with
      | y :: _ => (y <=? x) && non_increasing rest
      | [] => true
      end
  | [] => true
  end.

Definition occurrences (r : Z) (ranks : list Z) : nat :=
  length (filter (fun x => x = r) ranks).

(** The same as a relation between an item and a later one. *)
Definition follows (x y : Z) : Prop := y <= x.

(** Non-increasing, and 6, 5 and 1 at most once each. *)
Definition well_ordered (ranks : list Z) : bool :=
  non_increasing ranks
  && (occurrences 6 ranks <=? 1)%nat
  && (occurrences 5 ranks <=? 1)%nat
  && (occurrences 1 ranks <=? 1)%nat.

(** The builders a program can hold: the exported one, and whatever the
    methods return from those. *)
Inductive reachable : CssSelectorBuilder.t -> Prop :=
  | reachable_facade :
      reachable CssSelectorBuilder.cssSelectorBuilder
  | reachable_add c this value next :
      reachable this ->
      add c this value = Return next ->
      reachable next
  | reachable_combine this selector1 combinator selector2 :
      reachable this ->
      reachable selector1 ->
      reachable selector2 ->
      reachable (CssSelectorBuilder.combine this selector1 combinator selector2).

(** ** The class over an object store *)

(** Arrays and instances live in a store and are named by their location;
    [slice] and [new] allocate, [push] writes in place. A store only grows:
    nothing is ever freed. *)
Module Store.

Abbreviation loc := nat.

Inductive cell : Type :=
  | NumArr (items : list Z)
  | StrArr (items : list string)
  | Instance (callStack resultsArr : loc).

Abbreviation store := (list cell).

(** A computation takes a store and gives the store it leaves behind
    together with what it returned or threw. *)
Definition M (A : Type) : Type := store -> store * completion A.

Definition ret {A} (a : A) : M A := fun s => (s, Return a).

Definition throw {A} (e : exn) : M A := fun s => (s, Throw e).

Definition bind {A B} (m : M A) (k : A -> M B) : M B :=
  fun s =>
    match m s with
    | (s', Return a) => k a s'
    | (s', Throw e) => (s', Throw e)
    end.

Notation "'let*' x := m 'in' k" := (bind m (fun x => k))
  (at level 10, x name, m at level 100, k at level 200).
Notation "m ;; k" := (bind m (fun _ => k))
  (at level 100, k at level 200, right associativity).

Definition alloc (c : cell) : M loc := fun s => (s ++ [c], Return (length s)).

Definition load (l : loc) : M cell :=
  fun s =>
    match s !! l with
    | Some c => (s, Return c)
    | None => (s, Throw TypeError)
    end.

Definition write (l : loc) (c : cell) : M unit :=
  fun s => (<[l := c]> s, Return tt).

(** [this.callStack] and [this.resultsArr]. *)
Definition get_callStack (this : loc) : M loc :=
  let* c := load this in
  match c with
  | Instance callStack _ => ret callStack
  | _ => throw TypeError
  end.

Definition get_resultsArr (this : loc) : M loc :=
  let* c := load this in
  match c with
  | Instance _ resultsArr => ret resultsArr
  | _ => throw TypeError
  end.

(** [arr.slice()]: a new array with the same items. *)
Definition slice (arr : loc) : M loc :=
  let* c := load arr in
  match c with
  | NumArr items => alloc (NumArr items)
  | StrArr items => alloc (StrArr items)
  | Instance _ _ => throw TypeError
  end.

(** [arr.push(x)]: the array at [arr] itself gets one more item. *)
Definition push_num (arr : loc) (x : Z) : M unit :=
  let* c := load arr in
  match c with
  | NumArr items => write arr (NumArr (items ++ [x]))
  | _ => throw TypeError
  end.

Definition push_str (arr : loc) (x : string) : M unit :=
  let* c := load arr in
  match c with
  | StrArr items => write arr (StrArr (items ++ [x]))
  | _ => throw TypeError
  end.

(** [arr.find(p)]. *)
Definition find_num (arr : loc) (p : Z -> bool) : M (option Z) :=
  let* c := load arr in
  match c with
  | NumArr items => ret (find p items)
  | _ => throw TypeError
  end.

(** [arr.join('')]. *)
Definition join_str (arr : loc) : M string :=
  let* c := load arr in
  match c with
  | StrArr items => ret (join items)
  | _ => throw TypeError
  end.

(** [new CssSelectorBuilder(callStack, resultsArr)]: the instance keeps the
    two arrays it is given, not copies of them. *)
Definition new_CssSelectorBuilder (callStack resultsArr : loc) : M loc :=
  alloc (Instance callStack resultsArr).

Definition element (this : loc) (value : string) : M loc :=
  let* callStack := (let* a := get_callStack this in slice a) in
  let* resultsArr := (let* a := get_resultsArr this in slice a) in
  let* checkCallStack := find_num callStack (fun item => item <=? 6) in
  if strict_eq checkCallStack 6 then
    throw (Error CssSelectorBuilder.duplicate_message)
  else if less_than checkCallStack 6 then
    throw (Error CssSelectorBuilder.order_message)
  else
    push_str resultsArr value ;;
    push_num callStack 6 ;;
    new_CssSelectorBuilder callStack resultsArr.

Definition id (this : loc) (value : string) : M loc :=
  let* callStack := (let* a := get_callStack this in slice a) in
  let* resultsArr := (let* a := get_resultsArr this in slice a) in
  let* checkCallStack := find_num callStack (fun item => item <=? 5) in
  if strict_eq checkCallStack 5 then
    throw (Error CssSelectorBuilder.duplicate_message)
  else if less_than checkCallStack 5 then
    throw (Error CssSelectorBuilder.order_message)
  else
    push_str resultsArr ("#" +:+ value) ;;
    push_num callStack 5 ;;
    new_CssSelectorBuilder callStack resultsArr.

Definition class (this : loc) (value : string) : M loc :=
  let* callStack := (let* a := get_callStack this in slice a) in
  let* resultsArr := (let* a := get_resultsArr this in slice a) in
  let* checkCallStack := find_num callStack (fun item => item <? 4) in
  if less_than checkCallStack 4 then
    throw (Error CssSelectorBuilder.order_message)
  else
    push_str resultsArr ("." +:+ value) ;;
    push_num callStack 4 ;;
    new_CssSelectorBuilder callStack resultsArr.

Definition attr (this : loc) (value : string) : M loc :=
  let* callStack := (let* a := get_callStack this in slice a) in
  let* resultsArr := (let* a := get_resultsArr this in slice a) in
  let* checkCallStack := find_num callStack (fun item => item <? 3) in
  if less_than checkCallStack 3 then
    throw (Error CssSelectorBuilder.order_message)
  else
    push_str resultsArr ("[" +:+ value +:+ "]") ;;
    push_num callStack 3 ;;
    new_CssSelectorBuilder callStack resultsArr.

Definition pseudoClass (this : loc) (value : string) : M loc :=
  let* callStack := (let* a := get_callStack this in slice a) in
  let* resultsArr := (let* a := get_resultsArr this in slice a) in
  let* checkCallStack := find_num callStack (fun item => item <? 2) in
  if less_than checkCallStack 2 then
    throw (Error CssSelectorBuilder.order_message)
  else
    push_str resultsArr (":" +:+ value) ;;
    push_num callStack 2 ;;
    new_CssSelectorBuilder callStack resultsArr.

Definition pseudoElement (this : loc) (value : string) : M loc :=
  let* callStack := (let* a := get_callStack this in slice a) in
  let* resultsArr := (let* a := get_resultsArr this in slice a) in
  let* checkCallStack := find_num callStack (fun item => item <=? 1) in
  if strict_eq checkCallStack 1 then
    throw (Error CssSelectorBuilder.duplicate_message)
  else if less_than checkCallStack 1 then
    throw (Error CssSelectorBuilder.order_message)
  else
    push_str resultsArr ("::" +:+ value) ;;
    push_num callStack 1 ;;
    new_CssSelectorBuilder callStack resultsArr.

Definition stringify (this : loc) : M string :=
  let* resultsArr := get_resultsArr this in
  let* string := join_str resultsArr in
  ret string.

Definition combine (this selector1 : loc) (combinator : string) (selector2 : loc)
  : M loc :=
  let* resultsArr := (let* a := get_resultsArr this in slice a) in
  let* s1 := stringify selector1 in
  let* s2 := stringify selector2 in
  push_str resultsArr (s1 +:+ " " +:+ combinator +:+ " " +:+ s2) ;;
  let* callStack := alloc (NumArr []) in
  new_CssSelectorBuilder callStack resultsArr.

(** [new CssSelectorBuilder()]: each default parameter is a new empty array. *)
Definition new_default : M loc :=
  let* callStack := alloc (NumArr []) in
  let* resultsArr := alloc (StrArr []) in
  new_CssSelectorBuilder callStack resultsArr.

(** The store of the module once loaded: the exported instance at 2. *)
Definition initial : store := fst (new_default []).
Definition cssSelectorBuilder : loc := 2%nat.

Definition add (c : category) (this : loc) (value : string) : M loc :=
  match c with
  | Element => element this value
  | Id => id this value
  | Class => class this value
  | Attribute => attr this value
  | PseudoClass => pseudoClass this value
  | PseudoElement => pseudoElement this value
  end.

(** A chain of method calls: the first one that throws ends it. *)
Fixpoint chain (calls : list (category * string)) (this : loc) : M loc :=
  match calls with
  | [] => ret this
  | (c, value) :: rest => let* next := add c this value in chain rest next
  end.

(** The instance at [l] holds the fields of the value [b]. *)
Definition represents (s : store) (l : loc) (b : CssSelectorBuilder.t) : Prop :=
  exists callStack resultsArr,
    s !! l = Some (Instance callStack resultsArr)
    /\ s !! callStack = Some (NumArr b.(CssSelectorBuilder.callStack))
    /\ s !! resultsArr = Some (StrArr b.(CssSelectorBuilder.resultsArr)).

(** The cell at [l] is an instance. *)
Definition is_instance (s : store) (l : loc) : Prop :=
  exists callStack resultsArr, s !! l = Some (Instance callStack resultsArr).

End Store.

(** The store after
    [const a = cssSelectorBuilder.element('div').id('main')] and
    [const b = cssSelectorBuilder.element('table').id('data')]:
    the exported instance is at 2, [a] at 8 and [b] at 14. *)
Definition example_store : list Store.cell :=
  let s := Store.initial in
  let s := fst (Store.element 2 "div" s) in
  let s := fst (Store.id 5 "main" s) in
  let s := fst (Store.element 2 "table" s) in
  let s := fst (Store.id 11 "data" s) in
  s.

(** What a program can get out of the instance at [l]: it answers
    [stringify], the six add methods and [combine] as the value [b] does. *)
Definition behaves_like (s : list Store.cell) (l : nat) (b : CssSelectorBuilder.t)
  : Prop :=
  Store.stringify l s = (s, Return (CssSelectorBuilder.stringify b))
  /\ (forall c value,
         match add c b value with
         | Return next =>
             exists s' l',
               Store.add c l value s = (s', Return l')
               /\ Store.represents s' l' next
         | Throw e => exists s', Store.add c l value s = (s', Throw e)
         end)
  /\ (forall l1 b1 combinator l2 b2,
         Store.represents s l1 b1 ->
         Store.represents s l2 b2 ->
         exists s' l',
           Store.combine l l1 combinator l2 s = (s', Return l')
           /\ Store.represents s' l'
                (CssSelectorBuilder.combine b b1 combinator b2)).

(** Every instance keeps two arrays of its own, allocated just before it,
    that hold the fields of a reachable builder. *)
Definition well_formed (s : list Store.cell) : Prop :=
  forall l callStack resultsArr,
    s !! l = Some (Store.Instance callStack resultsArr) ->
    (callStack < l <= callStack + 2)%nat
    /\ (resultsArr < l <= resultsArr + 2)%nat
    /\ exists b,
         s !! callStack = Some (Store.NumArr b.(CssSelectorBuilder.callStack))
         /\ s !! resultsArr = Some (Store.StrArr b.(CssSelectorBuilder.resultsArr))
         /\ reachable b.

(** The stores a program can be in: the one of the loaded module, and the
    ones the methods leave behind when called on instances, with instances
    as operands. ([stringify] leaves the store as it found it.) *)
Inductive store_reachable : list Store.cell -> Prop :=
  | store_initial :
      store_reachable Store.initial
  | store_add c this value s :
      store_reachable s ->
      Store.is_instance s this ->
      store_reachable (Store.add c this value s).1
  | store_combine this selector1 combinator selector2 s :
      store_reachable s ->
      Store.is_instance s this ->
      Store.is_instance s selector1 ->
      Store.is_instance s selector2 ->
      store_reachable (Store.combine this selector1 combinator selector2 s).1.

(** ** [Rectangle] *)

Module Rect.

Abbreviation loc := nat.

Section Rectangle.

(** The numbers of JavaScript and its [*] are taken as they come: nothing
    below depends on how a product is computed. *)
Context {number : Type} (times : number -> number -> number) (nan : number).

(** What a property of the object can hold: a number, or the arrow function
    [() => this.width * this.height], which keeps the [this] of the
    constructor call that made it. *)
Inductive value : Type :=
  | Undefined
  | Number (n : number)
  | Arrow (this : loc).

(** An object is its own properties by name; the store is the list of the
    objects made so far. *)
Abbreviation object := (gmap string value).
Abbreviation store := (list object).

(** [o.name], [undefined] when the object has no such property. *)
Definition get (s : store) (o : loc) (name : string) : value :=
  match s !! o with
  | Some props => default Undefined (props !! name)
  | None => Undefined
  end.

(** [o.name = v]. *)
Definition set (o : loc) (name : string) (v : value) (s : store) : store :=
  alter (fun props : object => <[name := v]> props) o s.

(** [new Rectangle(width, height)]: a new object, then the three
    assignments of the body. *)
Definition Rectangle (width height : number) (s : store) : store * loc :=
  let this := length s in
  let s := s ++ [(∅ : object)] in
  let s := set this "width" (Number width) s in
  let s := set this "height" (Number height) s in
  let s := set this "getArea" (Arrow this) s in
  (s, this).

(** [a * b] on two property values: [undefined] and a function both
    convert to [NaN], and a product with [NaN] is [NaN]. *)
Definition product (a b : value) : number :=
  match a, b with
  | Number x, Number y => times x y
  | _, _ => nan
  end.

(** A call [f()] of a property value; [None] when it is no function. *)
Definition call (f : value) (s : store) : option number :=
  match f with
  | Arrow this => Some (product (get s this "width") (get s this "height"))
  | _ => None
  end.

(** A later assignment to a field of some object. *)
Inductive assignment : Type :=
  | Assign (o : loc) (name : string) (n : number).

Definition run (a : assignment) (s : store) : store :=
  match a with
  | Assign o name n => set o name (Number n) s
  end.

(** The number a field of [o] holds after a list of assignments: the last
    one assigned to it, or the one it had when none was. *)
Fixpoint current (o : loc) (name : string) (before : number)
  (later : list assignment) : number :=
  match later with
  | [] => before
  | Assign o' name' n :: rest =>
      current o name
        (if decide (o' = o /\ name' = name) then n else before) rest
  end.

End Rectangle.

Arguments value : clear implicits.
Arguments assignment : clear implicits.

End Rect.

(** ** [fromJSON] *)

Module Json.

Abbreviation loc := nat.

Section FromJSON.

Context {number : Type}.

(** What [JSON.parse] returns. The members of an object are in insertion
    order. *)
#[local] Unset Elimination Schemes.
Inductive json : Type :=
  | JNull
  | JBoolean (b : bool)
  | JNumber (n : number)
  | JString (s : string)
  | JArray (items : list json)
  | JObject (members : list (string * json)).
#[local] Set Elimination Schemes.

(** [JSON.parse] is the platform's: a text gives a value or a thrown
    [SyntaxError]. *)
Context (JSON_parse : string -> completion json).

(** An object: its prototype ([None] for [null]) and its own enumerable
    properties, in insertion order. *)
Record object : Type := Object {
  prototype : option loc;
  properties : list (string * json)
}.

Abbreviation store := (list object).

Definition M (A : Type) : Type := store -> store * completion A.

(** [Object.create(proto)] for [proto] an object or [null]: a new object
    with that prototype and no own property. *)
Definition Object_create (proto : option loc) : M loc :=
  fun s => (s ++ [Object proto []], Return (length s)).

(** The own enumerable string-keyed properties of [ToObject(source)], as
    [Object.assign] reads them: none for [null] (the source is skipped),
    none for the wrapper of a boolean or a number, the characters by index
    for a string, the items by index for an array, the members for an
    object. *)
Definition own_enumerable (source : json) : list (string * json) :=
  match source with
  | JNull => []
  | JBoolean _ => []
  | JNumber _ => []
  | JString s =>
      imap (fun i ch => (pretty i, JString (String ch EmptyString)))
           (String.list_ascii_of_string s)
  | JArray items => imap (fun i item => (pretty i, item)) items
  | JObject members => members
  end.

(** [target[key] = v] on the own properties: an existing key keeps its
    place, a new one goes last. *)
Fixpoint assign_property (key : string) (v : json) (props : list (string * json))
  : list (string * json) :=
  match props with
  | [] => [(key, v)]
  | (k, old) :: rest =>
      if String.eqb k key then (k, v) :: rest
      else (k, old) :: assign_property key v rest
  end.

(** [Object.assign(target, source)]: every own enumerable property of the
    source is assigned on the target, in order, and the target is
    returned. Setters and read-only properties found along the prototype
    chain are outside this model. *)
Definition Object_assign (target : loc) (source : json) : M loc :=
  fun s =>
    match s !! target with
    | Some o =>
        let props :=
          foldl (fun props kv => assign_property kv.1 kv.2 props)
                o.(properties) (own_enumerable source) in
        (<[target := Object o.(prototype) props]> s, Return target)
    | None => (s, Throw TypeError)
    end.

(** The arguments are evaluated left to right, then the call is made. *)
Definition fromJSON (proto : option loc) (json : string) : M loc :=
  fun s =>
    match Object_create proto s with
    | (s, Return target) =>
        match JSON_parse json with
        | Return source => Object_assign target source s
        | Throw e => (s, Throw e)
        end
    | (s, Throw e) => (s, Throw e)
    end.

(** The values that are neither an object, an array nor a string. *)
Definition primitive (v : json) : bool :=
  match v with
  | JNull | JBoolean _ | JNumber _ => true
  | JString _ | JArray _ | JObject _ => false
  end.

(** [JSON.stringify] is the platform's as well: a value gives a text, or
    a throw (a [BigInt], a cycle). *)
Context (JSON_stringify : json -> completion string).



End FromJSON.

Arguments json : clear implicits.
Arguments object : clear implicits.
Arguments M : clear implicits.

(** The three literal names of the JSON grammar, to run [fromJSON] on: this
    reads ["null"], ["true"] and ["false"] as [JSON.parse] does, and no
    other text. *)
Definition parse_literal (text : string) : completion (json Z) :=
  if String.eqb text "null" then Return JNull
  else if String.eqb text "true" then Return (JBoolean true)
  else if String.eqb text "false" then Return (JBoolean false)
  else Throw SyntaxError.

(** More texts to run on: [{"radius":10}], ["{}"] and ["[true]"], read as
    [JSON.parse] reads them, and the first two written as [JSON.stringify]
    writes them; nothing else is read or written. *)
Definition radius_text : string :=
  "{" +:+ String (Ascii.ascii_of_nat 34) "radius"
      +:+ String (Ascii.ascii_of_nat 34) ":10}".

Definition parse_sample (text : string) : completion (json Z) :=
  if String.eqb text radius_text then Return (JObject [("radius", JNumber 10)])
  else if String.eqb text "{}" then Return (JObject [])
  else if String.eqb text "[true]" then Return (JArray [JBoolean true])
  else Throw SyntaxError.


End Json.

(** * Properties *)

Import CssSelectorBuilder.

(** ** Lists of ranks *)

Lemma find_app {A} (p : A -> bool) (l1 l2 : list A) :
  find p (l1 ++ l2) = match find p l1 with Some x => Some x | None => find p l2 end.
Proof.
  induction l1 as [|a l1 IH]; simpl; [reflexivity|].
  destruct (p a); [reflexivity|apply IH].
Qed.

Lemma find_none_intro {A} (p : A -> bool) (l : list A) :
  (forall x, In x l -> p x = false) -> find p l = None.
Proof.
  induction l as [|a l IH]; simpl; intros H; [reflexivity|].
  rewrite (H a) by (left; reflexivity).
  apply IH. intros x Hx. apply H. right. exact Hx.
Qed.

Lemma non_increasing_spec (l : list Z) :
  non_increasing l = true <-> StronglySorted follows l.
Proof.
  induction l as [|x l IH]; simpl.
  - split; [constructor|reflexivity].
  - destruct l as [|y l'].
    + split; [repeat constructor|reflexivity].
    + rewrite andb_true_iff, IH, Z.leb_le, (StronglySorted_cons _ (y :: l') x).
      split.
      * intros [Hyx Hs]. split; [|exact Hs].
        apply StronglySorted_cons in Hs as [Hall _].
        constructor; [exact Hyx|].
        eapply Forall_impl; [exact Hall|].
        unfold follows. intros z Hz. lia.
      * intros [Hall Hs]. split; [|exact Hs].
        apply Forall_cons_1 in Hall as [Hyx _]. exact Hyx.
Qed.

Lemma occurrences_app (r : Z) (l1 l2 : list Z) :
  occurrences r (l1 ++ l2) = (occurrences r l1 + occurrences r l2)%nat.
Proof. unfold occurrences. rewrite filter_app, length_app. reflexivity. Qed.

Lemma occurrences_cons (r x : Z) (l : list Z) :
  occurrences r (x :: l)
  = ((if decide (x = r) then 1 else 0) + occurrences r l)%nat.
Proof.
  unfold occurrences. rewrite filter_cons.
  destruct (decide (x = r)); reflexivity.
Qed.

Lemma occurrences_In (r : Z) (l : list Z) :
  In r l -> (1 <= occurrences r l)%nat.
Proof.
  induction l as [|x l IH]; simpl; [tauto|].
  rewrite occurrences_cons. intros [->|H].
  - rewrite decide_True by reflexivity. lia.
  - specialize (IH H). lia.
Qed.

Lemma occurrences_zero (r : Z) (l : list Z) :
  (forall x, In x l -> x <> r) -> occurrences r l = 0%nat.
Proof.
  induction l as [|x l IH]; intros H; [reflexivity|].
  rewrite occurrences_cons, decide_False, IH; [reflexivity| |].
  - intros y Hy. apply H. right. exact Hy.
  - apply H. left. reflexivity.
Qed.

(** In a non-increasing list the first item at most [r] is [r] itself as
    soon as [r] occurs. *)
Lemma find_le_sorted (r : Z) (l : list Z) :
  StronglySorted follows l -> In r l ->
  find (fun item => item <=? r) l = Some r.
Proof.
  induction l as [|x l IH]; simpl; [tauto|].
  rewrite StronglySorted_cons. intros [Hall Hs] Hin.
  destruct (x <=? r) eqn:E.
  - apply Z.leb_le in E. destruct Hin as [->|Hin]; [reflexivity|].
    rewrite Forall_forall in Hall.
    apply list_elem_of_In in Hin. specialize (Hall r Hin).
    unfold follows in Hall. f_equal. lia.
  - apply Z.leb_gt in E. destruct Hin as [->|Hin]; [lia|].
    apply IH; assumption.
Qed.

(** ** The methods, case by case *)

(** All six methods are one scheme: the first recorded rank that meets the
    method's test decides, a duplicate when it is the method's own rank
    under a [<=] test, an order violation otherwise; with no such rank the
    call returns the extended builder. *)
Lemma add_unfold (c : category) (this : t) (value : string) :
  add c this value =
  match find (threshold c) this.(callStack) with
  | Some m =>
      if singleton c && (m =? rank c) then Throw DuplicateCategoryError
      else Throw OrderViolationError
  | None =>
      Return (new (this.(callStack) ++ [rank c])
                  (this.(resultsArr) ++ [render c value]))
  end.
Proof.
  destruct c; unfold add, element, id, class, attr, pseudoClass, pseudoElement,
    threshold; simpl;
    match goal with |- context [find ?p ?l] => destruct (find p l) as [m|] eqn:E end;
    simpl; try reflexivity;
    apply find_some in E as [_ E]; simpl in E;
    try (destruct (m =? _) eqn:E'; [reflexivity|
         apply Z.leb_le in E; apply Z.eqb_neq in E'];
         match goal with |- context [?a <? ?b] =>
           replace (a <? b) with true by (symmetry; apply Z.ltb_lt; lia) end;
         reflexivity);
    rewrite E; reflexivity.
Qed.

Lemma messages_differ : DuplicateCategoryError <> OrderViolationError.
Proof. discriminate. Qed.

Lemma threshold_false (c : category) (x : Z) :
  threshold c x = false <->
  (if singleton c then rank c < x else rank c <= x).
Proof.
  unfold threshold. destruct (singleton c).
  - apply Z.leb_gt.
  - rewrite Z.ltb_ge. reflexivity.
Qed.

Lemma threshold_true_le (c : category) (x : Z) :
  threshold c x = true -> x <= rank c.
Proof.
  unfold threshold. destruct (singleton c); [apply Z.leb_le|].
  intros H. apply Z.ltb_lt in H. lia.
Qed.

(** A call returns exactly when every recorded rank fails the test. *)
Lemma add_Return (c : category) (this next : t) (value : string) :
  add c this value = Return next <->
  (forall x, In x this.(callStack) -> threshold c x = false)
  /\ next = new (this.(callStack) ++ [rank c])
                (this.(resultsArr) ++ [render c value]).
Proof.
  rewrite add_unfold.
  destruct (find (threshold c) (callStack this)) as [m|] eqn:E.
  - split.
    + destruct (singleton c && (m =? rank c)); discriminate.
    + intros [H _]. apply find_some in E as [Hin Hm].
      rewrite (H m Hin) in Hm. discriminate.
  - split.
    + intros [= <-]. split; [|reflexivity]. apply find_none. exact E.
    + intros [_ ->]. reflexivity.
Qed.

(** ** Chains of calls *)

Lemma chain_app (calls1 calls2 : list (category * string)) (this : t) :
  chain (calls1 ++ calls2) this =
  match chain calls1 this with
  | Return next => chain calls2 next
  | Throw e => Throw e
  end.
Proof.
  revert this. induction calls1 as [|[c v] calls1 IH]; intros this; simpl.
  - reflexivity.
  - destruct (add c this v); [apply IH|reflexivity].
Qed.

(** What a chain that returned has recorded and rendered. *)
Lemma chain_Return (calls : list (category * string)) (this next : t) :
  chain calls this = Return next ->
  next.(callStack) = this.(callStack) ++ map (fun call => rank call.1) calls
  /\ next.(resultsArr)
     = this.(resultsArr) ++ map (fun call => render call.1 call.2) calls.
Proof.
  revert this. induction calls as [|[c v] calls IH]; intros this; simpl.
  - intros [= <-]. rewrite !app_nil_r. split; reflexivity.
  - destruct (add c this v) as [mid|] eqn:E; [|discriminate].
    intros H. apply IH in H as [H1 H2].
    apply add_Return in E as [_ ->]. simpl in H1, H2.
    rewrite <- !app_assoc in H1, H2. split; assumption.
Qed.

Lemma string_app_empty_r (x : string) : x +:+ EmptyString = x.
Proof.
  induction x as [|a x IH]; [reflexivity|].
  change (String a (x +:+ EmptyString) = String a x). rewrite IH. reflexivity.
Qed.

Lemma join_cons (x : string) (l : list string) :
  join (x :: l) = x +:+ join l.
Proof.
  unfold join. destruct l as [|y l].
  - cbn [String.concat]. rewrite string_app_empty_r. reflexivity.
  - reflexivity.
Qed.

Lemma join_rendered (calls : list (category * string)) :
  join (map (fun call => render call.1 call.2) calls) = concat_rendered calls.
Proof.
  induction calls as [|[c v] calls IH]; [reflexivity|].
  cbn [map concat_rendered fst snd]. rewrite join_cons, IH. reflexivity.
Qed.

Lemma string_app_assoc (a b c : string) : (a +:+ b) +:+ c = a +:+ (b +:+ c).
Proof.
  induction a as [|x a IH]; [reflexivity|].
  change (String x ((a +:+ b) +:+ c) = String x (a +:+ (b +:+ c))).
  rewrite IH. reflexivity.
Qed.

Lemma join_app (l1 l2 : list string) : join (l1 ++ l2) = join l1 +:+ join l2.
Proof.
  induction l1 as [|x l1 IH]; [reflexivity|].
  rewrite <- app_comm_cons, !join_cons, IH, string_app_assoc. reflexivity.
Qed.

(** ** The invariant *)

Lemma well_ordered_spec (l : list Z) :
  well_ordered l = true <->
  StronglySorted follows l
  /\ (occurrences 6 l <= 1)%nat
  /\ (occurrences 5 l <= 1)%nat
  /\ (occurrences 1 l <= 1)%nat.
Proof.
  unfold well_ordered.
  rewrite !andb_true_iff, non_increasing_spec, !Nat.leb_le. tauto.
Qed.

Lemma singleton_rank (c : category) :
  singleton c = true <-> rank c = 6 \/ rank c = 5 \/ rank c = 1.
Proof. destruct c; simpl; split; intros H; try reflexivity; try lia; discriminate. Qed.

(** Appending the rank of a call that returned keeps the list well
    ordered. *)
Lemma well_ordered_snoc (c : category) (l : list Z) :
  well_ordered l = true ->
  (forall x, In x l -> threshold c x = false) ->
  well_ordered (l ++ [rank c]) = true.
Proof.
  rewrite !well_ordered_spec. intros (Hs & H6 & H5 & H1) Hall.
  assert (Hge : forall x, In x l -> rank c <= x).
  { intros x Hx. specialize (Hall x Hx). apply threshold_false in Hall.
    destruct (singleton c); lia. }
  assert (Hocc : forall r, (occurrences r l <= 1)%nat ->
                 (rank c = r -> singleton c = true) ->
                 (occurrences r (l ++ [rank c]) <= 1)%nat).
  { intros r Hr Hsing. rewrite occurrences_app, occurrences_cons.
    change (occurrences r []) with 0%nat.
    destruct (decide (rank c = r)) as [Heq|Hne]; [|lia].
    rewrite occurrences_zero; [lia|].
    intros x Hx ->. specialize (Hall _ Hx). apply threshold_false in Hall.
    rewrite (Hsing Heq) in Hall. lia. }
  split; [|repeat split; apply Hocc; try assumption;
            intros H; apply singleton_rank; lia].
  apply StronglySorted_app. split; [|split; [exact Hs|repeat constructor]].
  intros x y Hx Hy. apply list_elem_of_In in Hx.
  apply list_elem_of_In in Hy. destruct Hy as [<-|[]]. apply Hge, Hx.
Qed.

Lemma add_preserves (c : category) (this next : t) (value : string) :
  well_ordered this.(callStack) = true ->
  add c this value = Return next ->
  well_ordered next.(callStack) = true.
Proof.
  intros Hwo H. apply add_Return in H as [Hall ->]. simpl.
  apply well_ordered_snoc; assumption.
Qed.

Lemma reachable_well_ordered (b : t) :
  reachable b -> well_ordered b.(callStack) = true.
Proof.
  induction 1 as [|c this v next _ IH H| ].
  - reflexivity.
  - eapply add_preserves; eassumption.
  - reflexivity.
Qed.

Lemma reachable_chain (calls : list (category * string)) (this last : t) :
  reachable this -> chain calls this = Return last -> reachable last.
Proof.
  revert this. induction calls as [|[c v] calls IH]; intros this Hr; simpl.
  - intros [= <-]. exact Hr.
  - destruct (add c this v) as [mid|] eqn:E; [|discriminate].
    apply IH. eapply reachable_add; eassumption.
Qed.

(** Every reachable builder is the end of a chain of calls that all
    returned, started on a reachable builder with nothing recorded (the
    exported one, or one returned by [combine]); what it records are the
    ranks of those calls. *)
Lemma reachable_history (b : t) :
  reachable b ->
  exists base calls,
    reachable base /\ base.(callStack) = [] /\ chain calls base = Return b.
Proof.
  induction 1 as [|c this v next Hr (base & calls & Hb & He & Hch) H
                  |this s1 comb s2 Hr _ H1 _ H2 _].
  - exists cssSelectorBuilder, []. repeat split. apply reachable_facade.
  - exists base, (calls ++ [(c, v)]). split; [exact Hb|]. split; [exact He|].
    rewrite chain_app, Hch. simpl. rewrite H. reflexivity.
  - exists (combine this s1 comb s2), []. repeat split.
    apply reachable_combine; assumption.
Qed.

(** In a well-ordered list, whatever stands before the rank of [c] fails
    the test of [c]. *)
Lemma well_ordered_before (c : category) (l rest : list Z) :
  well_ordered (l ++ rank c :: rest) = true ->
  forall x, In x l -> threshold c x = false.
Proof.
  rewrite well_ordered_spec. intros (Hs & H6 & H5 & H1) x Hx.
  apply threshold_false.
  assert (Hge : rank c <= x).
  { apply StronglySorted_app in Hs as (Hs & _ & _).
    apply (Hs x (rank c)); apply list_elem_of_In; [exact Hx|left; reflexivity]. }
  destruct (singleton c) eqn:Hsing; [|exact Hge].
  assert (Hne : x <> rank c); [|lia].
  intros ->.
  assert (Hocc : (2 <= occurrences (rank c) (l ++ rank c :: rest))%nat).
  { rewrite occurrences_app, occurrences_cons, decide_True by reflexivity.
    pose proof (occurrences_In _ _ Hx). lia. }
  apply singleton_rank in Hsing as [E|[E|E]]; rewrite E in *; lia.
Qed.

Lemma well_ordered_chain (calls : list (category * string)) (this : t) :
  well_ordered (this.(callStack) ++ map (fun call => rank call.1) calls) = true ->
  exists last, chain calls this = Return last.
Proof.
  revert this. induction calls as [|[c v] calls IH]; intros this H; simpl.
  - eexists. reflexivity.
  - simpl in H.
    assert (E : add c this v = Return (new (this.(callStack) ++ [rank c])
                                          (this.(resultsArr) ++ [render c v]))).
    { apply add_Return. split; [|reflexivity].
      eapply well_ordered_before. exact H. }
    rewrite E. apply IH. simpl. rewrite <- app_assoc. exact H.
Qed.

(** ** The store: what a method touches *)

(** A method run on [s ++ ext] reads the instances and arrays of [s] and
    allocates and writes in [ext] only. *)
Section Frame.

Context (s ext : list Store.cell).

Lemma lookup_old (l : nat) (c : Store.cell) :
  s !! l = Some c -> (s ++ ext) !! l = Some c.
Proof. apply lookup_app_l_Some. Qed.

Lemma lookup_new (k : nat) : (s ++ ext) !! (length s + k)%nat = ext !! k.
Proof. rewrite lookup_app_r by lia. f_equal. lia. Qed.

Lemma get_callStack_old (this a b : nat) :
  s !! this = Some (Store.Instance a b) ->
  Store.get_callStack this (s ++ ext) = (s ++ ext, Return a).
Proof.
  intros H. unfold Store.get_callStack, Store.bind, Store.load.
  rewrite (lookup_old _ _ H). reflexivity.
Qed.

Lemma get_resultsArr_old (this a b : nat) :
  s !! this = Some (Store.Instance a b) ->
  Store.get_resultsArr this (s ++ ext) = (s ++ ext, Return b).
Proof.
  intros H. unfold Store.get_resultsArr, Store.bind, Store.load.
  rewrite (lookup_old _ _ H). reflexivity.
Qed.

Lemma alloc_ext (c : Store.cell) :
  Store.alloc c (s ++ ext)
  = (s ++ (ext ++ [c]), Return (length s + length ext)%nat).
Proof. unfold Store.alloc. rewrite app_assoc, length_app. reflexivity. Qed.

Lemma slice_old_num (l : nat) (xs : list Z) :
  s !! l = Some (Store.NumArr xs) ->
  Store.slice l (s ++ ext)
  = (s ++ (ext ++ [Store.NumArr xs]), Return (length s + length ext)%nat).
Proof.
  intros H. unfold Store.slice, Store.bind, Store.load.
  rewrite (lookup_old _ _ H). apply alloc_ext.
Qed.

Lemma slice_old_str (l : nat) (xs : list string) :
  s !! l = Some (Store.StrArr xs) ->
  Store.slice l (s ++ ext)
  = (s ++ (ext ++ [Store.StrArr xs]), Return (length s + length ext)%nat).
Proof.
  intros H. unfold Store.slice, Store.bind, Store.load.
  rewrite (lookup_old _ _ H). apply alloc_ext.
Qed.

Lemma find_num_new (k : nat) (p : Z -> bool) (xs : list Z) :
  ext !! k = Some (Store.NumArr xs) ->
  Store.find_num (length s + k)%nat p (s ++ ext)
  = (s ++ ext, Return (find p xs)).
Proof.
  intros H. unfold Store.find_num, Store.bind, Store.load.
  rewrite lookup_new, H. reflexivity.
Qed.

Lemma write_new (k : nat) (c : Store.cell) :
  Store.write (length s + k)%nat c (s ++ ext)
  = (s ++ <[k := c]> ext, Return tt).
Proof. unfold Store.write. rewrite insert_app_r. reflexivity. Qed.

Lemma push_num_new (k : nat) (x : Z) (xs : list Z) :
  ext !! k = Some (Store.NumArr xs) ->
  Store.push_num (length s + k)%nat x (s ++ ext)
  = (s ++ <[k := Store.NumArr (xs ++ [x])]> ext, Return tt).
Proof.
  intros H. unfold Store.push_num, Store.bind, Store.load.
  rewrite lookup_new, H. apply write_new.
Qed.

Lemma push_str_new (k : nat) (x : string) (xs : list string) :
  ext !! k = Some (Store.StrArr xs) ->
  Store.push_str (length s + k)%nat x (s ++ ext)
  = (s ++ <[k := Store.StrArr (xs ++ [x])]> ext, Return tt).
Proof.
  intros H. unfold Store.push_str, Store.bind, Store.load.
  rewrite lookup_new, H. apply write_new.
Qed.

Lemma join_str_old (l : nat) (xs : list string) :
  s !! l = Some (Store.StrArr xs) ->
  Store.join_str l (s ++ ext) = (s ++ ext, Return (join xs)).
Proof.
  intros H. unfold Store.join_str, Store.bind, Store.load.
  rewrite (lookup_old _ _ H). reflexivity.
Qed.

Lemma stringify_old (l : nat) (b : t) :
  Store.represents s l b ->
  Store.stringify l (s ++ ext) = (s ++ ext, Return (stringify b)).
Proof.
  intros (lcs & lra & Hl & _ & Hra). unfold Store.stringify, Store.bind.
  rewrite (get_resultsArr_old _ _ _ Hl), (join_str_old _ _ Hra). reflexivity.
Qed.

Lemma represents_old (l : nat) (b : t) :
  Store.represents s l b -> Store.represents (s ++ ext) l b.
Proof.
  intros (lcs & lra & Hl & Hcs & Hra). exists lcs, lra.
  repeat split; apply lookup_old; assumption.
Qed.

End Frame.

Ltac run_store Hthis Hcs Hra :=
  repeat first
    [ rewrite (get_callStack_old _ _ _ _ _ Hthis)
    | rewrite (get_resultsArr_old _ _ _ _ _ Hthis)
    | rewrite (slice_old_num _ _ _ _ Hcs)
    | rewrite (slice_old_str _ _ _ _ Hra)
    | erewrite find_num_new by reflexivity
    | erewrite push_str_new by reflexivity
    | erewrite push_num_new by reflexivity
    | rewrite alloc_ext
    | progress cbn [app length] ].

(** The six methods over the store do what the methods on values do, and
    leave behind the store they were given with three cells added when they
    return (the two copies made by [slice], pushed to, and the instance
    that keeps them) and with the two copies alone when they throw. *)
Lemma add_simulation
  (s : list Store.cell) (this : nat) (b : t) (c : category) (value : string) :
  Store.represents s this b ->
  Store.add c this value s =
  match add c b value with
  | Return next =>
      (s ++ [Store.NumArr next.(callStack); Store.StrArr next.(resultsArr);
             Store.Instance (length s) (length s + 1)],
       Return (length s + 2)%nat)
  | Throw e =>
      (s ++ [Store.NumArr b.(callStack); Store.StrArr b.(resultsArr)], Throw e)
  end.
Proof.
  intros (lcs & lra & Hthis & Hcs & Hra).
  rewrite <- (app_nil_r s) at 1.
  destruct c;
    cbv [Store.add add
         Store.element Store.id Store.class Store.attr Store.pseudoClass
         Store.pseudoElement element id class attr pseudoClass pseudoElement
         Store.bind Store.new_CssSelectorBuilder];
    run_store Hthis Hcs Hra;
    repeat match goal with
           | |- context [if ?x then _ else _] => destruct x
           end;
    try reflexivity.
  all: cbv beta; run_store Hthis Hcs Hra; rewrite Nat.add_0_r; reflexivity.
Qed.

Lemma stringify_simulation (s : list Store.cell) (this : nat) (b : t) :
  Store.represents s this b ->
  Store.stringify this s = (s, Return (stringify b)).
Proof.
  intros H. rewrite <- (app_nil_r s). apply stringify_old. exact H.
Qed.

(** [combine] adds three cells as well: the copy of the fragments of the
    builder it is called on with the combined string pushed, the new empty
    array, and the instance. *)
Lemma combine_simulation
  (s : list Store.cell) (this l1 l2 : nat) (b b1 b2 : t) (combinator : string) :
  Store.represents s this b ->
  Store.represents s l1 b1 ->
  Store.represents s l2 b2 ->
  Store.combine this l1 combinator l2 s =
  (s ++ [Store.StrArr (combine b b1 combinator b2).(resultsArr);
         Store.NumArr (combine b b1 combinator b2).(callStack);
         Store.Instance (length s + 1) (length s)],
   Return (length s + 2)%nat).
Proof.
  intros (lcs & lra & Hthis & Hcs & Hra) H1 H2.
  rewrite <- (app_nil_r s) at 1.
  cbv [Store.combine Store.bind Store.new_CssSelectorBuilder].
  run_store Hthis Hcs Hra.
  rewrite (stringify_old _ _ _ _ H1), (stringify_old _ _ _ _ H2).
  run_store Hthis Hcs Hra. rewrite Nat.add_0_r. reflexivity.
Qed.

Lemma lookup_first_new (s : list Store.cell) (c : Store.cell) (rest : list Store.cell) :
  (s ++ c :: rest) !! length s = Some c.
Proof. apply list_lookup_middle. reflexivity. Qed.

Lemma lookup_fresh (s : list Store.cell) (k : nat) : s !! (length s + k)%nat = None.
Proof. apply lookup_ge_None_2. lia. Qed.

Lemma represents_added (s : list Store.cell) (b : t) :
  Store.represents
    (s ++ [Store.NumArr b.(callStack); Store.StrArr b.(resultsArr);
           Store.Instance (length s) (length s + 1)])
    (length s + 2) b.
Proof.
  exists (length s), (length s + 1)%nat. split; [|split].
  - rewrite lookup_new. reflexivity.
  - apply lookup_first_new.
  - rewrite lookup_new. reflexivity.
Qed.

Lemma represents_combined (s : list Store.cell) (b : t) :
  Store.represents
    (s ++ [Store.StrArr b.(resultsArr); Store.NumArr b.(callStack);
           Store.Instance (length s + 1) (length s)])
    (length s + 2) b.
Proof.
  exists (length s + 1)%nat, (length s). split; [|split].
  - rewrite lookup_new. reflexivity.
  - rewrite lookup_new. reflexivity.
  - apply lookup_first_new.
Qed.

(** An instance that holds the fields of [b] answers like [b]. *)
Lemma represents_behaves (s : list Store.cell) (l : nat) (b : t) :
  Store.represents s l b -> behaves_like s l b.
Proof.
  intros H. split; [|split].
  - apply stringify_simulation. exact H.
  - intros c value. rewrite (add_simulation s l b c value H).
    destruct (add c b value) as [next|e].
    + eexists _, _. split; [reflexivity|]. apply represents_added.
    + eexists. reflexivity.
  - intros l1 b1 combinator l2 b2 H1 H2.
    rewrite (combine_simulation s l l1 l2 b b1 b2 combinator H H1 H2).
    eexists _, _. split; [reflexivity|]. apply represents_combined.
Qed.

(** The two array copies a method leaves behind when it throws are no
    instances. *)
Lemma no_new_instance (s : list Store.cell) (xs : list Z) (ys : list string) (l : nat) :
  Store.is_instance (s ++ [Store.NumArr xs; Store.StrArr ys]) l ->
  Store.is_instance s l.
Proof.
  intros (a & b & H). exists a, b.
  destruct (decide (l < length s)%nat) as [Hlt|Hge].
  - rewrite lookup_app_l in H by exact Hlt. exact H.
  - rewrite lookup_app_r in H by lia.
    destruct (l - length s)%nat as [|[|k]]; discriminate H.
Qed.

(** A chain over the store does what the chain on values does, and only
    adds cells. *)
Lemma chain_simulation (calls : list (category * string))
  (s : list Store.cell) (this : nat) (b : t) :
  Store.represents s this b ->
  exists s' r,
    Store.chain calls this s = (s', r)
    /\ s `prefix_of` s'
    /\ match chain calls b with
       | Return last => exists l, r = Return l /\ Store.represents s' l last
       | Throw e => r = Throw e
       end.
Proof.
  revert s this b. induction calls as [|[c v] calls IH]; intros s this b H.
  - exists s, (Return this). split; [reflexivity|]. split; [reflexivity|].
    exists this. split; [reflexivity|exact H].
  - cbn [Store.chain chain]. unfold Store.bind.
    rewrite (add_simulation s this b c v H).
    destruct (add c b v) as [next|e].
    + destruct (IH _ _ next (represents_added s next)) as (s' & r & Hrun & Hpre & Hres).
      exists s', r. split; [exact Hrun|]. split; [|exact Hres].
      etransitivity; [|exact Hpre]. apply prefix_app_r. reflexivity.
    + eexists _, _. split; [reflexivity|].
      split; [apply prefix_app_r; reflexivity|reflexivity].
Qed.

(** ** The builder: claims *)

(** C1. Calls made from the exported builder in an order where the ranks
    never go up and element, id and pseudo-element come at most once: every
    call of the chain returns, and [stringify()] on the last builder is the
    rendered forms of the calls one after the other, in call order, with
    nothing in between. *)
Theorem C1_valid_chain_stringify (calls : list (category * string)) :
  well_ordered (map (fun call => rank call.1) calls) = true ->
  (forall n, exists b, chain (take n calls) cssSelectorBuilder = Return b)
  /\ exists last,
       chain calls cssSelectorBuilder = Return last
       /\ last.(resultsArr) = map (fun call => render call.1 call.2) calls
       /\ stringify last = concat_rendered calls.
Proof.
  intros H.
  destruct (well_ordered_chain calls cssSelectorBuilder H) as [last Hlast].
  split.
  - intros n. rewrite <- (take_drop n calls), chain_app in Hlast.
    destruct (chain (take n calls) cssSelectorBuilder) as [b|]; [|discriminate].
    exists b. reflexivity.
  - exists last. split; [exact Hlast|].
    apply chain_Return in Hlast as [_ Hres]. simpl in Hres.
    split; [exact Hres|].
    unfold stringify. rewrite Hres. apply join_rendered.
Qed.

Lemma C1_witness :
  well_ordered (map (fun call => rank call.1)
     [(Element, "a"); (Class, "b"); (Class, "c"); (Attribute, "href");
      (PseudoClass, "focus"); (PseudoElement, "after")]) = true
  /\ exists last,
       chain [(Element, "a"); (Class, "b"); (Class, "c"); (Attribute, "href");
              (PseudoClass, "focus"); (PseudoElement, "after")]
             cssSelectorBuilder = Return last
       /\ stringify last = "a.b.c[href]:focus::after".
Proof.
  split; [reflexivity|].
  destruct (C1_valid_chain_stringify
     [(Element, "a"); (Class, "b"); (Class, "c"); (Attribute, "href");
      (PseudoClass, "focus"); (PseudoElement, "after")] eq_refl)
    as [_ (last & H1 & _ & H2)].
  exists last. split; [exact H1|exact H2].
Defined.

(** C2, as stated, fails: after [element('a').id('b')] a call of [element],
    whose rank 6 is above the 5 of the [id] that returned, throws the
    duplicate error, not the order error. *)
Lemma C2_counterexample :
  chain [(Element, "a"); (Id, "b")] cssSelectorBuilder
    = Return (new [6; 5] ["a"; "#b"])
  /\ rank Id < rank Element
  /\ add Element (new [6; 5] ["a"; "#b"]) "c" = Throw DuplicateCategoryError
  /\ add Element (new [6; 5] ["a"; "#b"]) "c" <> Throw OrderViolationError.
Proof.
  split; [reflexivity|]. split; [reflexivity|]. split; [reflexivity|].
  discriminate.
Qed.

(** C2, amended. On a reachable builder where a call of some category has
    returned, whatever calls returned since, a call of a category of
    strictly greater rank throws: the duplicate error when that category is
    element, id or pseudo-element and its rank is already recorded, the
    order error otherwise. And the order error is thrown in no other
    situation: a reachable builder on which a call throws it is the end of
    a chain of calls that all returned, one of them of a category ranked
    strictly below that of the call. *)
Theorem C2_greater_rank_throws :
  (forall this c1 v1 b1 calls last c2 v2,
      reachable this ->
      add c1 this v1 = Return b1 ->
      chain calls b1 = Return last ->
      rank c1 < rank c2 ->
      (singleton c2 = true /\ In (rank c2) last.(callStack) ->
       add c2 last v2 = Throw DuplicateCategoryError)
      /\ (singleton c2 = false \/ ~ In (rank c2) last.(callStack) ->
          add c2 last v2 = Throw OrderViolationError))
  /\ (forall b c2 v2,
         reachable b ->
         add c2 b v2 = Throw OrderViolationError ->
         exists base calls1 c1 v1 calls2,
           reachable base
           /\ chain (calls1 ++ (c1, v1) :: calls2) base = Return b
           /\ In (rank c1) b.(callStack)
           /\ rank c1 < rank c2).
Proof.
  split.
  - intros this c1 v1 b1 calls last c2 v2 Hr H1 Hch Hlt.
    assert (Hrl : reachable last).
    { eapply reachable_chain; [|exact Hch]. eapply reachable_add; eassumption. }
    assert (Hin : In (rank c1) last.(callStack)).
    { apply chain_Return in Hch as [-> _]. apply add_Return in H1 as [_ ->].
      simpl. apply in_or_app. left. apply in_or_app. right. left. reflexivity. }
    apply reachable_well_ordered, well_ordered_spec in Hrl as [Hs _].
    rewrite add_unfold. split.
    + intros [Hsing Hin2]. unfold threshold. rewrite Hsing.
      rewrite (find_le_sorted _ _ Hs Hin2), Z.eqb_refl. reflexivity.
    + intros Hcase.
      destruct (find (threshold c2) (callStack last)) as [m|] eqn:E.
      * apply find_some in E as [Hm _].
        destruct Hcase as [->|Hnot]; [reflexivity|].
        replace (m =? rank c2) with false; [rewrite andb_false_r; reflexivity|].
        symmetry. apply Z.eqb_neq. intros ->. exact (Hnot Hm).
      * pose proof (find_none _ _ E _ Hin) as Hf.
        apply threshold_false in Hf. destruct (singleton c2); lia.
  - intros b c2 v2 Hr. rewrite add_unfold.
    destruct (find (threshold c2) (callStack b)) as [m|] eqn:E; [|discriminate].
    apply find_some in E as [Hm Ht].
    destruct (singleton c2 && (m =? rank c2)) eqn:Hd.
    + intros H. exfalso. apply messages_differ. congruence.
    + intros _.
      assert (Hlt : m < rank c2).
      { unfold threshold in Ht. destruct (singleton c2); simpl in Hd.
        - apply Z.leb_le in Ht. apply Z.eqb_neq in Hd. lia.
        - apply Z.ltb_lt in Ht. exact Ht. }
      destruct (reachable_history b Hr) as (base & calls & Hb & He & Hch).
      pose proof (chain_Return _ _ _ Hch) as [Hcs _].
      rewrite He in Hcs. simpl in Hcs.
      assert (Hm' := Hm). rewrite Hcs in Hm'.
      apply in_map_iff in Hm' as ([c1 v1] & Hrank & Hcall).
      apply in_split in Hcall as (calls1 & calls2 & ->).
      simpl in Hrank. subst m.
      exists base, calls1, c1, v1, calls2. repeat split; assumption.
Qed.

Lemma C2_witness :
  rank Class < rank Id
  /\ add Id (new [6; 4; 3] ["a"; ".b"; "[c]"]) "d" = Throw OrderViolationError
  /\ rank Id < rank Element
  /\ add Element (new [6; 5] ["a"; "#b"]) "c" = Throw DuplicateCategoryError.
Proof.
  split; [reflexivity|]. split; [|split; [reflexivity|]].
  - apply (proj1 C2_greater_rank_throws (new [6] ["a"]) Class "b"
             (new [6; 4] ["a"; ".b"]) [(Attribute, "c")]
             (new [6; 4; 3] ["a"; ".b"; "[c]"]) Id "d").
    + apply (reachable_add Element cssSelectorBuilder "a");
        [apply reachable_facade|reflexivity].
    + reflexivity.
    + reflexivity.
    + reflexivity.
    + right. simpl. intros [H|[H|[H|[]]]]; discriminate H.
  - apply (proj1 C2_greater_rank_throws (new [6] ["a"]) Id "b"
             (new [6; 5] ["a"; "#b"]) [] (new [6; 5] ["a"; "#b"]) Element "c").
    + apply (reachable_add Element cssSelectorBuilder "a");
        [apply reachable_facade|reflexivity].
    + reflexivity.
    + reflexivity.
    + reflexivity.
    + split; [reflexivity|]. simpl. left. reflexivity.
Defined.

(** A category without the [===] branch can be called again and again. *)
Lemma repeat_returns (c : category) (values : list string) (b : t) :
  singleton c = false ->
  (forall x, In x b.(callStack) -> threshold c x = false) ->
  exists last,
    chain (map (fun v => (c, v)) values) b = Return last
    /\ last.(callStack) = b.(callStack) ++ map (fun _ => rank c) values
    /\ last.(resultsArr) = b.(resultsArr) ++ map (render c) values.
Proof.
  intros Hsing. revert b. induction values as [|v values IH]; intros b Hall.
  - exists b. simpl. rewrite !app_nil_r. repeat split; reflexivity.
  - cbn [map chain].
    assert (E : add c b v = Return (new (b.(callStack) ++ [rank c])
                                        (b.(resultsArr) ++ [render c v]))).
    { apply add_Return. split; [exact Hall|reflexivity]. }
    rewrite E.
    destruct (IH (new (b.(callStack) ++ [rank c])
                      (b.(resultsArr) ++ [render c v])))
      as (last & Hch & Hcs & Hres).
    { simpl. intros x Hx. apply in_app_or in Hx as [Hx|[<-|[]]];
        [apply Hall, Hx|]. apply threshold_false. rewrite Hsing. lia. }
    exists last. split; [exact Hch|].
    rewrite Hcs, Hres. cbn [callStack resultsArr].
    rewrite <- !app_assoc. split; reflexivity.
Qed.

(** C3. A chain of calls that all returned and holds a call of element, id
    or pseudo-element: one more call of that category throws the duplicate
    error. Class, attribute and pseudo-class have no such limit: a call
    returns whenever no recorded rank is below its own, however often its
    own rank is recorded, so repeated over any list of values every call
    returns and appends its fragment. *)
Theorem C3_second_singleton_throws_others_repeat :
  (forall c calls1 v1 calls2 this last v2,
      singleton c = true ->
      chain (calls1 ++ (c, v1) :: calls2) this = Return last ->
      add c last v2 = Throw DuplicateCategoryError)
  /\ (forall c this value,
         singleton c = false ->
         (forall x, In x this.(callStack) -> rank c <= x) ->
         add c this value
         = Return (new (this.(callStack) ++ [rank c])
                       (this.(resultsArr) ++ [render c value])))
  /\ (forall c this v1 b1 values,
         singleton c = false ->
         add c this v1 = Return b1 ->
         exists last,
           chain (map (fun v => (c, v)) values) b1 = Return last
           /\ last.(callStack) = b1.(callStack) ++ map (fun _ => rank c) values
           /\ last.(resultsArr) = b1.(resultsArr) ++ map (render c) values).
Proof.
  split; [|split].
  - intros c calls1 v1 calls2 this last v2 Hsing H.
    rewrite chain_app in H.
    destruct (chain calls1 this) as [b1|] eqn:E1; [|discriminate].
    simpl in H. destruct (add c b1 v1) as [b2|] eqn:E2; [|discriminate].
    apply chain_Return in H as [Hcs _].
    apply add_Return in E2 as [Hall ->]. simpl in Hcs.
    rewrite add_unfold, Hcs, <- app_assoc, find_app.
    rewrite (find_none_intro _ _ Hall). simpl.
    unfold threshold at 1. rewrite Hsing, Z.leb_refl, Z.eqb_refl. reflexivity.
  - intros c this value Hsing Hall. apply add_Return. split; [|reflexivity].
    intros x Hx. apply threshold_false. rewrite Hsing. apply Hall, Hx.
  - intros c this v1 b1 values Hsing H1. apply repeat_returns; [exact Hsing|].
    apply add_Return in H1 as [Hall ->]. simpl. intros x Hx.
    apply in_app_or in Hx as [Hx|[<-|[]]]; [apply Hall, Hx|].
    apply threshold_false. rewrite Hsing. lia.
Qed.

Lemma C3_witness :
  chain ([(Element, "div")] ++ (Id, "main") :: [(Class, "a"); (Class, "b")])
        cssSelectorBuilder
    = Return (new [6; 5; 4; 4] ["div"; "#main"; ".a"; ".b"])
  /\ add Id (new [6; 5; 4; 4] ["div"; "#main"; ".a"; ".b"]) "other"
     = Throw DuplicateCategoryError
  /\ add Class (new [6; 5; 4; 4] ["div"; "#main"; ".a"; ".b"]) "c"
     = Return (new [6; 5; 4; 4; 4] ["div"; "#main"; ".a"; ".b"; ".c"]).
Proof.
  split; [reflexivity|]. split.
  - apply (proj1 C3_second_singleton_throws_others_repeat Id
             [(Element, "div")] "main" [(Class, "a"); (Class, "b")]
             cssSelectorBuilder
             (new [6; 5; 4; 4] ["div"; "#main"; ".a"; ".b"]) "other");
      reflexivity.
  - apply (proj1 (proj2 C3_second_singleton_throws_others_repeat) Class
             (new [6; 5; 4; 4] ["div"; "#main"; ".a"; ".b"]) "c");
      [reflexivity|].
    simpl. intros x [<-|[<-|[<-|[<-|[]]]]]; lia.
Defined.

(** C4. On a reachable builder that records the rank of element, id or
    pseudo-element and also a rank strictly below it, a call of that
    category throws the duplicate error: the [===] branch is tried before
    the [<] branch. *)
Theorem C4_duplicate_before_order
  (b : t) (c : category) (value : string) (lower : Z) :
  reachable b ->
  singleton c = true ->
  In (rank c) b.(callStack) ->
  In lower b.(callStack) ->
  lower < rank c ->
  add c b value = Throw DuplicateCategoryError.
Proof.
  intros Hr Hsing Hin _ _.
  apply reachable_well_ordered, well_ordered_spec in Hr as [Hs _].
  rewrite add_unfold. unfold threshold. rewrite Hsing.
  rewrite (find_le_sorted _ _ Hs Hin), Z.eqb_refl. reflexivity.
Qed.

Lemma C4_witness :
  reachable (new [6; 5; 4] ["a"; "#b"; ".c"])
  /\ add Id (new [6; 5; 4] ["a"; "#b"; ".c"]) "d" = Throw DuplicateCategoryError.
Proof.
  assert (Hr : reachable (new [6; 5; 4] ["a"; "#b"; ".c"])).
  { apply (reachable_chain [(Element, "a"); (Id, "b"); (Class, "c")]
             cssSelectorBuilder); [apply reachable_facade|reflexivity]. }
  split; [exact Hr|].
  apply (C4_duplicate_before_order _ Id "d" 4 Hr).
  - reflexivity.
  - simpl. right. left. reflexivity.
  - simpl. right. right. left. reflexivity.
  - reflexivity.
Defined.

(** C5. No method writes to what it is called on. Run on any store where
    [this] is an instance with the fields of [b]: an add method leaves the
    store it was given as a prefix of the store it leaves behind, so every
    cell that was there is as it was and [this] still has the fields of
    [b]; when it returns, the instance returned is at a location that was
    not in use and has the fields of the extended builder; when it throws,
    no instance has been made (the cells added are the two array copies
    made by [slice]) and [this] still answers [stringify], the add methods
    and [combine] as [b] does. [combine] likewise returns an instance at a
    location not in use and leaves [this] and both operands as they were.
    [stringify] leaves the store as it is. *)
Theorem C5_methods_write_nothing_old
  (s : list Store.cell) (this : nat) (b : t) :
  Store.represents s this b ->
  (forall c value,
      exists s' r,
        Store.add c this value s = (s', r)
        /\ s `prefix_of` s'
        /\ Store.represents s' this b
        /\ match r with
           | Return l =>
               s !! l = None
               /\ exists next,
                    add c b value = Return next /\ Store.represents s' l next
           | Throw e =>
               add c b value = Throw e
               /\ (forall l, Store.is_instance s' l -> Store.is_instance s l)
               /\ behaves_like s' this b
           end)
  /\ (forall l1 b1 combinator l2 b2,
         Store.represents s l1 b1 ->
         Store.represents s l2 b2 ->
         exists s' l,
           Store.combine this l1 combinator l2 s = (s', Return l)
           /\ s `prefix_of` s'
           /\ s !! l = None
           /\ Store.represents s' this b
           /\ Store.represents s' l1 b1
           /\ Store.represents s' l2 b2
           /\ Store.represents s' l (combine b b1 combinator b2))
  /\ Store.stringify this s = (s, Return (stringify b)).
Proof.
  intros H. split; [|split].
  - intros c value. rewrite (add_simulation s this b c value H).
    destruct (add c b value) as [next|e].
    + eexists _, _. split; [reflexivity|].
      split; [apply prefix_app_r; reflexivity|].
      split; [apply represents_old; exact H|].
      split; [apply lookup_fresh|].
      exists next. split; [reflexivity|apply represents_added].
    + eexists _, _. split; [reflexivity|].
      split; [apply prefix_app_r; reflexivity|].
      split; [apply represents_old; exact H|].
      split; [reflexivity|].
      split; [intros l; apply no_new_instance|].
      apply represents_behaves, represents_old. exact H.
  - intros l1 b1 combinator l2 b2 H1 H2.
    rewrite (combine_simulation s this l1 l2 b b1 b2 combinator H H1 H2).
    eexists _, _. split; [reflexivity|].
    split; [apply prefix_app_r; reflexivity|].
    split; [apply lookup_fresh|].
    repeat (split; [apply represents_old; assumption|]).
    apply represents_combined.
  - apply stringify_simulation. exact H.
Qed.

Lemma C5_witness :
  Store.represents example_store 8 (new [6; 5] ["div"; "#main"])
  /\ Store.stringify 8 example_store = (example_store, Return "div#main")
  /\ exists s' r,
       Store.add Element 8 "span" example_store = (s', r)
       /\ example_store `prefix_of` s'
       /\ Store.represents s' 8 (new [6; 5] ["div"; "#main"]).
Proof.
  assert (H : Store.represents example_store 8 (new [6; 5] ["div"; "#main"])).
  { exists 6%nat, 7%nat. repeat split; reflexivity. }
  split; [exact H|].
  destruct (C5_methods_write_nothing_old example_store 8
              (new [6; 5] ["div"; "#main"]) H) as (Hadd & _ & Hstr).
  split; [exact Hstr|].
  destruct (Hadd Element "span") as (s' & r & H1 & H2 & H3 & _).
  exists s', r. repeat split; assumption.
Defined.

(** C6. The recorded ranks of every reachable builder never go up in append
    order and hold 6, 5 and 1 at most once each. A call of any of the six
    add methods that returns keeps this, and so does [combine]; [stringify]
    returns a string and leaves the store, so the builder and what it
    records, as it was. *)
Theorem C6_reachable_well_ordered :
  (forall b, reachable b -> well_ordered b.(callStack) = true)
  /\ (forall c this value next,
         well_ordered this.(callStack) = true ->
         add c this value = Return next ->
         well_ordered next.(callStack) = true)
  /\ (forall this selector1 combinator selector2,
         well_ordered this.(callStack) = true ->
         well_ordered (combine this selector1 combinator selector2).(callStack)
         = true)
  /\ (forall s this b,
         Store.represents s this b ->
         Store.stringify this s = (s, Return (stringify b))).
Proof.
  split; [exact reachable_well_ordered|]. split; [|split].
  - intros c this value next Hwo H. eapply add_preserves; eassumption.
  - intros. reflexivity.
  - exact stringify_simulation.
Qed.

Lemma C6_witness :
  well_ordered (new [6; 4; 4] ["a"; ".b"; ".c"]).(callStack) = true
  /\ add Attribute (new [6; 4; 4] ["a"; ".b"; ".c"]) "d"
     = Return (new [6; 4; 4; 3] ["a"; ".b"; ".c"; "[d]"])
  /\ well_ordered (new [6; 4; 4; 3] ["a"; ".b"; ".c"; "[d]"]).(callStack) = true.
Proof.
  split; [reflexivity|]. split; [reflexivity|].
  apply (proj1 (proj2 C6_reachable_well_ordered) Attribute
           (new [6; 4; 4] ["a"; ".b"; ".c"]) "d"); reflexivity.
Defined.

(** C7. [combine] called on the exported builder (or on any instance whose
    two arrays are empty) with two operands: it returns, at a location that
    was not in use, an instance whose fragments are the one string
    [selector1.stringify() + " " + combinator + " " + selector2.stringify()]
    and whose recorded ranks are empty; every cell of the store it was
    given is as it was, both operands included; [stringify] on the result
    gives that string; and each of the six add methods returns on it. *)
Theorem C7_combine_on_the_exported_builder
  (s : list Store.cell) (this l1 l2 : nat) (b1 b2 : t) (combinator : string) :
  Store.represents s this cssSelectorBuilder ->
  Store.represents s l1 b1 ->
  Store.represents s l2 b2 ->
  exists s' l,
    Store.combine this l1 combinator l2 s = (s', Return l)
    /\ s !! l = None
    /\ s `prefix_of` s'
    /\ Store.represents s' l1 b1
    /\ Store.represents s' l2 b2
    /\ Store.represents s' l
         (new [] [stringify b1 +:+ " " +:+ combinator +:+ " " +:+ stringify b2])
    /\ Store.stringify l s'
       = (s', Return (stringify b1 +:+ " " +:+ combinator +:+ " " +:+ stringify b2))
    /\ forall c value,
         exists s'' l',
           Store.add c l value s' = (s'', Return l')
           /\ Store.represents s'' l'
                (new [rank c]
                     [stringify b1 +:+ " " +:+ combinator +:+ " " +:+ stringify b2;
                      render c value]).
Proof.
  intros H H1 H2.
  rewrite (combine_simulation s this l1 l2 _ b1 b2 combinator H H1 H2).
  eexists _, _. split; [reflexivity|].
  split; [apply lookup_fresh|].
  split; [apply prefix_app_r; reflexivity|].
  split; [apply represents_old; exact H1|].
  split; [apply represents_old; exact H2|].
  pose proof (represents_combined s (combine cssSelectorBuilder b1 combinator b2))
    as Hnew.
  split; [exact Hnew|].
  split; [apply (stringify_simulation _ _ _ Hnew)|].
  intros c value. rewrite (add_simulation _ _ _ c value Hnew).
  destruct c; (eexists _, _; split; [reflexivity|]; apply represents_added).
Qed.

Lemma C7_witness :
  Store.represents example_store 2 cssSelectorBuilder
  /\ Store.represents example_store 8 (new [6; 5] ["div"; "#main"])
  /\ Store.represents example_store 14 (new [6; 5] ["table"; "#data"])
  /\ exists s' l,
       Store.combine 2 8 "+" 14 example_store = (s', Return l)
       /\ Store.stringify l s' = (s', Return "div#main + table#data").
Proof.
  assert (H : Store.represents example_store 2 cssSelectorBuilder).
  { exists 0%nat, 1%nat. repeat split; reflexivity. }
  assert (H1 : Store.represents example_store 8 (new [6; 5] ["div"; "#main"])).
  { exists 6%nat, 7%nat. repeat split; reflexivity. }
  assert (H2 : Store.represents example_store 14 (new [6; 5] ["table"; "#data"])).
  { exists 12%nat, 13%nat. repeat split; reflexivity. }
  split; [exact H|]. split; [exact H1|]. split; [exact H2|].
  destruct (C7_combine_on_the_exported_builder example_store 2 8 14 _ _ "+" H H1 H2)
    as (s' & l & Hc & _ & _ & _ & _ & _ & Hs & _).
  exists s', l. split; [exact Hc|exact Hs].
Defined.

(** C9. [combine] starts from a copy of the fragments of the builder it is
    called on: called on a builder that has fragments, the result holds
    those followed by the one combined string, so more than one fragment,
    and its recorded ranks are empty all the same. *)
Theorem C9_combine_keeps_receiver_fragments
  (this selector1 selector2 : t) (combinator : string) :
  this.(resultsArr) <> [] ->
  (combine this selector1 combinator selector2).(resultsArr)
  = this.(resultsArr)
    ++ [stringify selector1 +:+ " " +:+ combinator +:+ " " +:+ stringify selector2]
  /\ (1 < length (combine this selector1 combinator selector2).(resultsArr))%nat
  /\ (combine this selector1 combinator selector2).(callStack) = []
  /\ stringify (combine this selector1 combinator selector2)
     = stringify this
       +:+ stringify selector1 +:+ " " +:+ combinator +:+ " " +:+ stringify selector2.
Proof.
  intros Hne. split; [reflexivity|]. split; [|split; [reflexivity|]].
  - simpl. rewrite length_app. simpl.
    destruct (resultsArr this); [congruence|simpl; lia].
  - unfold stringify. simpl. rewrite join_app, join_cons.
    change (join []) with EmptyString. rewrite string_app_empty_r. reflexivity.
Qed.

Lemma C9_witness :
  (new [5] ["#x"]).(resultsArr) <> []
  /\ (combine (new [5] ["#x"]) (new [6] ["a"]) "+" (new [6] ["b"])).(resultsArr)
     = ["#x"; "a + b"]
  /\ stringify (combine (new [5] ["#x"]) (new [6] ["a"]) "+" (new [6] ["b"]))
     = "#xa + b".
Proof.
  assert (Hne : (new [5] ["#x"]).(resultsArr) <> []) by discriminate.
  split; [exact Hne|].
  destruct (C9_combine_keeps_receiver_fragments
              (new [5] ["#x"]) (new [6] ["a"]) (new [6] ["b"]) "+" Hne)
    as (H1 & _ & _ & H2).
  split; [exact H1|exact H2].
Defined.

(** ** [Rectangle] *)

Section RectangleFacts.

Context {number : Type} (times : number -> number -> number) (nan : number).

Lemma get_set_same (s : list (gmap string (Rect.value number))) (o : nat)
  (name : string) (v : Rect.value number) :
  (o < length s)%nat -> Rect.get (Rect.set o name v s) o name = v.
Proof.
  intros H. unfold Rect.get, Rect.set.
  destruct (lookup_lt_is_Some_2 s o H) as [props Hp].
  rewrite list_lookup_alter_eq, Hp. simpl. rewrite lookup_insert_eq. reflexivity.
Qed.

Lemma get_set_other (s : list (gmap string (Rect.value number))) (o o' : nat)
  (name name' : string) (v : Rect.value number) :
  ~ (o' = o /\ name' = name) ->
  Rect.get (Rect.set o' name' v s) o name = Rect.get s o name.
Proof.
  intros H. unfold Rect.get, Rect.set.
  destruct (decide (o' = o)) as [->|Hne].
  - rewrite list_lookup_alter_eq. destruct (s !! o) as [props|]; [|reflexivity].
    simpl. rewrite lookup_insert_ne; [reflexivity|].
    intros ->. apply H. split; reflexivity.
  - rewrite list_lookup_alter_ne by exact Hne. reflexivity.
Qed.

Lemma length_set (s : list (gmap string (Rect.value number))) (o : nat)
  (name : string) (v : Rect.value number) :
  length (Rect.set o name v s) = length s.
Proof. unfold Rect.set. apply length_alter. Qed.

(** A field that holds a number holds, after any assignments, the last
    number assigned to it. *)
Lemma get_after (later : list (Rect.assignment number))
  (s : list (gmap string (Rect.value number)))
  (o : nat) (name : string) (before : number) :
  (o < length s)%nat ->
  Rect.get s o name = Rect.Number before ->
  Rect.get (foldl (fun s a => Rect.run a s) s later) o name
  = Rect.Number (Rect.current o name before later).
Proof.
  revert s before.
  induction later as [|[o' name' n] later IH]; intros s before Hlen Hget.
  - exact Hget.
  - cbn [foldl Rect.current Rect.run]. apply IH.
    + rewrite length_set. exact Hlen.
    + destruct (decide (o' = o /\ name' = name)) as [[-> ->]|Hne].
      * apply get_set_same. exact Hlen.
      * rewrite get_set_other by exact Hne. exact Hget.
Qed.

(** What [new Rectangle(width, height)] leaves in the store. *)
Lemma Rectangle_fields (s : list (gmap string (Rect.value number)))
  (width height : number) :
  (Rect.Rectangle width height s).2 = length s
  /\ (length s < length (Rect.Rectangle width height s).1)%nat
  /\ Rect.get (Rect.Rectangle width height s).1 (length s) "width"
     = Rect.Number width
  /\ Rect.get (Rect.Rectangle width height s).1 (length s) "height"
     = Rect.Number height
  /\ Rect.get (Rect.Rectangle width height s).1 (length s) "getArea"
     = Rect.Arrow (length s).
Proof.
  unfold Rect.Rectangle. cbn [fst snd].
  assert (Hlen : (length s < length (s ++ [(∅ : gmap string (Rect.value number))]))%nat).
  { rewrite length_app. simpl. lia. }
  split; [reflexivity|]. split; [rewrite !length_set; exact Hlen|].
  split; [|split].
  - rewrite !get_set_other by (intros [_ H]; discriminate H).
    apply get_set_same. exact Hlen.
  - rewrite get_set_other by (intros [_ H]; discriminate H).
    apply get_set_same. rewrite length_set. exact Hlen.
  - apply get_set_same. rewrite !length_set. exact Hlen.
Qed.

End RectangleFacts.

(** C8. [new Rectangle(width, height)] makes a new object whose [width] is
    [width], whose [height] is [height] and whose [getArea] is a function
    that, called with no argument, returns [width * height]; called after
    any list of later assignments (to fields of this or of other objects),
    it returns the product of the numbers the two fields hold by then. *)
Theorem C8_rectangle_area {number : Type}
  (times : number -> number -> number) (nan : number)
  (s : list (gmap string (Rect.value number))) (width height : number)
  (later : list (Rect.assignment number)) :
  let s1 := (Rect.Rectangle width height s).1 in
  let r := (Rect.Rectangle width height s).2 in
  let getArea := Rect.get s1 r "getArea" in
  let s2 := foldl (fun s a => Rect.run a s) s1 later in
  s !! r = None
  /\ Rect.get s1 r "width" = Rect.Number width
  /\ Rect.get s1 r "height" = Rect.Number height
  /\ Rect.call times nan getArea s1 = Some (times width height)
  /\ Rect.get s2 r "width" = Rect.Number (Rect.current r "width" width later)
  /\ Rect.get s2 r "height" = Rect.Number (Rect.current r "height" height later)
  /\ Rect.call times nan getArea s2
     = Some (times (Rect.current r "width" width later)
                   (Rect.current r "height" height later)).
Proof.
  intros s1 r getArea s2.
  destruct (Rectangle_fields s width height) as (Hr & Hlen & Hw & Hh & Hf).
  fold s1 in Hlen, Hw, Hh, Hf. fold r in Hr.
  assert (Hw2 := get_after later s1 (length s) "width" width Hlen Hw).
  assert (Hh2 := get_after later s1 (length s) "height" height Hlen Hh).
  fold s2 in Hw2, Hh2. unfold getArea. rewrite Hr, Hf.
  split; [apply lookup_ge_None_2; lia|].
  split; [exact Hw|]. split; [exact Hh|].
  split; [cbn [Rect.call]; rewrite Hw, Hh; reflexivity|].
  split; [exact Hw2|]. split; [exact Hh2|].
  cbn [Rect.call]. rewrite Hw2, Hh2. reflexivity.
Qed.

(** [const r = new Rectangle(10, 20); r.getArea()] is 200, and after
    [r.width = 3] it is 60. *)
Example rectangle_10_20 :
  let s1 := (Rect.Rectangle 10 20 []).1 in
  let getArea := Rect.get s1 0 "getArea" in
  Rect.call Z.mul 0 getArea s1 = Some 200
  /\ Rect.call Z.mul 0 getArea (Rect.run (Rect.Assign 0 "width" 3) s1) = Some 60.
Proof. split; vm_compute; reflexivity. Qed.

(** ** [fromJSON] *)

(** C10. When the text parses to [null], a boolean or a number,
    [fromJSON(p, text)] returns, and what it returns is a new object (at
    the first location not in use) whose prototype is [p] and which has no
    own property; the objects that were in the store are as they were. *)
Theorem C10_fromJSON_of_a_primitive {number : Type}
  (JSON_parse : string -> completion (Json.json number))
  (s : list (Json.object number)) (p : nat) (text : string)
  (v : Json.json number) :
  JSON_parse text = Return v ->
  Json.primitive v = true ->
  Json.fromJSON JSON_parse (Some p) text s
  = (s ++ [Json.Object (Some p) []], Return (length s))
  /\ s !! length s = None.
Proof.
  intros Hparse Hprim. split; [|apply lookup_ge_None_2; lia].
  unfold Json.fromJSON, Json.Object_create. rewrite Hparse.
  unfold Json.Object_assign.
  rewrite list_lookup_middle by reflexivity.
  replace (Json.own_enumerable v) with (@nil (string * Json.json number))
    by (destruct v; try discriminate Hprim; reflexivity).
  cbn [foldl Json.prototype Json.properties].
  rewrite insert_app_r_alt by lia. rewrite Nat.sub_diag. reflexivity.
Qed.

Lemma C10_witness :
  Json.parse_literal "null" = Return Json.JNull
  /\ Json.primitive (@Json.JNull Z) = true
  /\ Json.fromJSON Json.parse_literal (Some 0%nat) "null" [Json.Object None []]
     = ([Json.Object None []; Json.Object (Some 0%nat) []], Return 1%nat).
Proof.
  split; [reflexivity|]. split; [reflexivity|].
  apply (C10_fromJSON_of_a_primitive Json.parse_literal
           [Json.Object None []] 0 "null" Json.JNull); reflexivity.
Defined.

(** ** The examples of the source and of the specification *)

Example example_id_class_class :
  match chain [(Id, "main"); (Class, "container"); (Class, "editable")]
              cssSelectorBuilder with
  | Return b => stringify b = "#main.container.editable"
  | Throw _ => False
  end.
Proof. reflexivity. Qed.

Example example_element_attr_pseudoClass :
  match chain [(Element, "a"); (Attribute, "href$=.png"); (PseudoClass, "focus")]
              cssSelectorBuilder with
  | Return b => stringify b = "a[href$=.png]:focus"
  | Throw _ => False
  end.
Proof. reflexivity. Qed.

Example example_element_twice :
  chain [(Element, "div"); (Element, "span")] cssSelectorBuilder
  = Throw DuplicateCategoryError.
Proof. reflexivity. Qed.

Example example_id_then_element :
  chain [(Id, "x"); (Element, "div")] cssSelectorBuilder
  = Throw OrderViolationError.
Proof. reflexivity. Qed.

Example example_nested_combine :
  stringify
    (combine cssSelectorBuilder
       (new [6; 5; 4; 4] ["div"; "#main"; ".container"; ".draggable"])
       "+"
       (combine cssSelectorBuilder
          (new [6; 5] ["table"; "#data"])
          "~"
          (combine cssSelectorBuilder
             (new [6; 2] ["tr"; ":nth-of-type(even)"])
             " "
             (new [6; 2] ["td"; ":nth-of-type(even)"]))))
  = "div#main.container.draggable + table#data ~ tr:nth-of-type(even)   td:nth-of-type(even)".
Proof. reflexivity. Qed.

(** * Further properties *)

(** ** The builder as a value *)

Lemma rank_inj (c1 c2 : category) : rank c1 = rank c2 -> c1 = c2.
Proof. destruct c1, c2; simpl; intros H; try reflexivity; discriminate H. Qed.

Lemma rank_bounds (c : category) : 1 <= rank c <= 6.
Proof. destruct c; simpl; lia. Qed.

(** What a reachable builder records are ranks of categories, in an order
    that never goes up. *)
Lemma reachable_recorded (b : t) :
  reachable b ->
  StronglySorted follows b.(callStack)
  /\ forall x, In x b.(callStack) -> exists c, rank c = x.
Proof.
  intros Hr. split.
  - apply reachable_well_ordered, well_ordered_spec in Hr as [Hs _]. exact Hs.
  - destruct (reachable_history b Hr) as (base & calls & _ & He & Hch).
    apply chain_Return in Hch as [-> _]. rewrite He. simpl.
    intros x Hx. apply in_map_iff in Hx as ([c v] & <- & _).
    exists c. reflexivity.
Qed.

(** A chain that throws has a first call that throws. *)
Lemma chain_Throw (calls : list (category * string)) (this : t) (e : exn) :
  chain calls this = Throw e ->
  exists ok c value rest b,
    calls = ok ++ (c, value) :: rest
    /\ chain ok this = Return b
    /\ add c b value = Throw e.
Proof.
  revert this. induction calls as [|[c v] calls IH]; intros this; simpl.
  - discriminate.
  - destruct (add c this v) as [next|e'] eqn:E.
    + intros H. destruct (IH next H) as (ok & c' & v' & rest & b & -> & Hok & Hb).
      exists ((c, v) :: ok), c', v', rest, b.
      split; [reflexivity|]. split; [|exact Hb]. simpl. rewrite E. exact Hok.
    + intros [= ->]. exists [], c, v, calls, this.
      split; [reflexivity|]. split; [reflexivity|exact E].
Qed.

(** X1. A chain started on the exported builder returns exactly when the ranks
    of its calls never go up and element, id and pseudo-element are called
    at most once each. *)
Theorem chain_returns_iff_well_ordered (calls : list (category * string)) :
  (exists last, chain calls cssSelectorBuilder = Return last)
  <-> well_ordered (map (fun call => rank call.1) calls) = true.
Proof.
  split.
  - intros [last H].
    pose proof (reachable_chain calls _ _ reachable_facade H) as Hr.
    apply reachable_well_ordered in Hr.
    apply chain_Return in H as [Hcs _]. simpl in Hcs. rewrite <- Hcs. exact Hr.
  - intros H. apply well_ordered_chain. exact H.
Qed.

Lemma chain_returns_iff_well_ordered_witness :
  well_ordered (map (fun call => rank call.1) [(Id, "a"); (Class, "b"); (Class, "c")])
  = true
  /\ exists last,
       chain [(Id, "a"); (Class, "b"); (Class, "c")] cssSelectorBuilder
       = Return last.
Proof.
  split; [reflexivity|].
  apply (proj2 (chain_returns_iff_well_ordered
                  [(Id, "a"); (Class, "b"); (Class, "c")])).
  reflexivity.
Defined.

(** X2. On a reachable builder a call is decided by what is recorded, wherever
    it stands: the duplicate error when the category is element, id or
    pseudo-element and its rank is recorded; else the order error when some
    recorded rank is below the rank of the call; else the call returns the
    builder with the rank and the rendered fragment appended. *)
Theorem add_by_membership (b : t) (c : category) (value : string) :
  reachable b ->
  add c b value =
  if singleton c && existsb (fun x => x =? rank c) b.(callStack) then
    Throw DuplicateCategoryError
  else if existsb (fun x => x <? rank c) b.(callStack) then
    Throw OrderViolationError
  else
    Return (new (b.(callStack) ++ [rank c]) (b.(resultsArr) ++ [render c value])).
Proof.
  intros Hr. destruct (reachable_recorded b Hr) as [Hs _].
  rewrite add_unfold.
  destruct (singleton c && existsb (fun x => x =? rank c) (callStack b)) eqn:Hdup.
  - apply andb_true_iff in Hdup as [Hsing Hex].
    apply existsb_exists in Hex as (x & Hx & Heq). apply Z.eqb_eq in Heq. subst x.
    unfold threshold. rewrite Hsing, (find_le_sorted _ _ Hs Hx), Z.eqb_refl.
    reflexivity.
  - destruct (find (threshold c) (callStack b)) as [m|] eqn:E.
    + apply find_some in E as [Hm Ht].
      assert (Hnd : singleton c && (m =? rank c) = false).
      { destruct (singleton c); [|reflexivity]. simpl in *.
        destruct (m =? rank c) eqn:Heq; [|reflexivity].
        rewrite <- Hdup. symmetry. apply existsb_exists. exists m. split; assumption. }
      rewrite Hnd.
      replace (existsb (fun x => x <? rank c) (callStack b)) with true; [reflexivity|].
      symmetry. apply existsb_exists. exists m. split; [exact Hm|].
      apply Z.ltb_lt. pose proof (threshold_true_le _ _ Ht) as Hle.
      unfold threshold in Ht. destruct (singleton c); simpl in Hnd.
      * apply Z.eqb_neq in Hnd. lia.
      * apply Z.ltb_lt. exact Ht.
    + replace (existsb (fun x => x <? rank c) (callStack b)) with false; [reflexivity|].
      symmetry. apply not_true_is_false. intros Hex.
      apply existsb_exists in Hex as (x & Hx & Hlt). apply Z.ltb_lt in Hlt.
      pose proof (find_none _ _ E x Hx) as Hf. apply threshold_false in Hf.
      destruct (singleton c); lia.
Qed.

Lemma add_by_membership_witness :
  reachable (new [6; 4] ["a"; ".b"])
  /\ add Id (new [6; 4] ["a"; ".b"]) "c" = Throw OrderViolationError.
Proof.
  assert (Hr : reachable (new [6; 4] ["a"; ".b"])).
  { apply (reachable_chain [(Element, "a"); (Class, "b")] cssSelectorBuilder);
      [apply reachable_facade|reflexivity]. }
  split; [exact Hr|].
  rewrite (add_by_membership _ Id "c" Hr). reflexivity.
Defined.

(** X3. A chain started on the exported builder that throws: the calls before
    some call all returned, that call threw the error of the chain, and the
    error is the duplicate error exactly when its category is element, id
    or pseudo-element and was called before in the chain; otherwise it is
    the order error, and a category of lower rank was called before. *)
Theorem chain_throws_at_first_offender
  (calls : list (category * string)) (e : exn) :
  chain calls cssSelectorBuilder = Throw e ->
  exists ok c value rest b,
    calls = ok ++ (c, value) :: rest
    /\ chain ok cssSelectorBuilder = Return b
    /\ add c b value = Throw e
    /\ ((e = DuplicateCategoryError
         /\ singleton c = true /\ In c (map fst ok))
        \/ (e = OrderViolationError
            /\ (singleton c = false \/ ~ In c (map fst ok))
            /\ exists c1, In c1 (map fst ok) /\ rank c1 < rank c)).
Proof.
  intros H.
  destruct (chain_Throw _ _ _ H) as (ok & c & v & rest & b & -> & Hok & Hb).
  exists ok, c, v, rest, b. split; [reflexivity|]. split; [exact Hok|].
  split; [exact Hb|].
  pose proof (reachable_chain ok _ _ reachable_facade Hok) as Hr.
  apply chain_Return in Hok as [Hcs _]. simpl in Hcs.
  assert (Hmem : forall c', In (rank c') b.(callStack) <-> In c' (map fst ok)).
  { intros c'. rewrite Hcs. split.
    - intros Hin. apply in_map_iff in Hin as ([c2 v2] & Hrk & Hin).
      apply rank_inj in Hrk. simpl in Hrk. subst c2.
      apply in_map_iff. exists (c', v2). split; [reflexivity|exact Hin].
    - intros Hin. apply in_map_iff in Hin as ([c2 v2] & <- & Hin).
      apply in_map_iff. exists (c2, v2). split; [reflexivity|exact Hin]. }
  rewrite (add_unfold c b v) in Hb.
  destruct (reachable_recorded b Hr) as [Hs Hranks].
  destruct (find (threshold c) (callStack b)) as [m|] eqn:E; [|discriminate].
  destruct (find_some _ _ E) as [Hm Ht].
  destruct (singleton c) eqn:Hsing; simpl in Hb.
  - destruct (m =? rank c) eqn:Heq.
    + apply Z.eqb_eq in Heq. subst m. injection Hb as <-.
      left. split; [reflexivity|]. split; [reflexivity|apply Hmem, Hm].
    + apply Z.eqb_neq in Heq. injection Hb as <-.
      right. split; [reflexivity|]. split.
      * right. intros Hin. apply Hmem in Hin.
        pose proof (find_le_sorted _ _ Hs Hin) as Hf.
        unfold threshold in E. rewrite Hsing in E.
        change (find (fun item => item <=? rank c) (callStack b) = Some m) in E.
        congruence.
      * destruct (Hranks m Hm) as [c1 <-]. exists c1. split; [apply Hmem, Hm|].
        apply threshold_true_le in Ht. lia.
  - injection Hb as <-. right. split; [reflexivity|]. split; [left; reflexivity|].
    destruct (Hranks m Hm) as [c1 <-]. exists c1. split; [apply Hmem, Hm|].
    unfold threshold in Ht. rewrite Hsing in Ht. apply Z.ltb_lt. exact Ht.
Qed.

Lemma chain_throws_at_first_offender_witness :
  chain [(Class, "a"); (Id, "b"); (Id, "c")] cssSelectorBuilder
  = Throw OrderViolationError
  /\ exists ok c value rest b,
       [(Class, "a"); (Id, "b"); (Id, "c")] = ok ++ (c, value) :: rest
       /\ chain ok cssSelectorBuilder = Return b
       /\ add c b value = Throw OrderViolationError.
Proof.
  assert (H : chain [(Class, "a"); (Id, "b"); (Id, "c")] cssSelectorBuilder
              = Throw OrderViolationError) by reflexivity.
  split; [exact H|].
  destruct (chain_throws_at_first_offender _ _ H)
    as (ok & c & v & rest & b & H1 & H2 & H3 & _).
  exists ok, c, v, rest, b. split; [exact H1|]. split; [exact H2|exact H3].
Defined.

(** X4. Whatever builder a chain is started on, when it returns [stringify] of
    the result is [stringify] of that builder followed by the rendered
    forms of the calls: fragments are only ever appended. *)
Theorem chain_stringify_appends
  (calls : list (category * string)) (this last : t) :
  chain calls this = Return last ->
  stringify last = stringify this +:+ concat_rendered calls.
Proof.
  intros H. apply chain_Return in H as [_ Hres].
  unfold stringify. rewrite Hres, join_app, join_rendered. reflexivity.
Qed.

Lemma chain_stringify_appends_witness :
  chain [(Id, "x"); (Class, "y")]
        (combine cssSelectorBuilder (new [6] ["a"]) ">" (new [6] ["b"]))
  = Return (new [5; 4] ["a > b"; "#x"; ".y"])
  /\ stringify (new [5; 4] ["a > b"; "#x"; ".y"]) = "a > b#x.y".
Proof.
  assert (H : chain [(Id, "x"); (Class, "y")]
                (combine cssSelectorBuilder (new [6] ["a"]) ">" (new [6] ["b"]))
              = Return (new [5; 4] ["a > b"; "#x"; ".y"])) by reflexivity.
  split; [exact H|].
  rewrite (chain_stringify_appends _ _ _ H). reflexivity.
Defined.

(** X5. On a reachable builder [element] returns exactly when nothing is
    recorded: it can only be the first call of a chain. *)
Theorem element_only_first (b : t) (value : string) :
  reachable b ->
  (exists next, element b value = Return next) <-> b.(callStack) = [].
Proof.
  intros Hr. destruct (reachable_recorded b Hr) as [_ Hranks]. split.
  - intros [next H]. change (add Element b value = Return next) in H.
    apply add_Return in H as [Hall _].
    destruct (callStack b) as [|x l]; [reflexivity|].
    exfalso. assert (Hx : In x (x :: l)) by (left; reflexivity).
    destruct (Hranks x Hx) as [c <-].
    specialize (Hall _ Hx). apply threshold_false in Hall. simpl in Hall.
    pose proof (rank_bounds c). lia.
  - intros He. unfold element. rewrite He. simpl. eexists. reflexivity.
Qed.

Lemma element_only_first_witness :
  reachable (combine cssSelectorBuilder (new [5] ["#a"]) "+" (new [5] ["#b"]))
  /\ exists next,
       element (combine cssSelectorBuilder (new [5] ["#a"]) "+" (new [5] ["#b"]))
               "div"
       = Return next.
Proof.
  assert (Ha : forall v, reachable (new [5] ["#" +:+ v])).
  { intros v. apply (reachable_add Id cssSelectorBuilder v);
      [apply reachable_facade|reflexivity]. }
  assert (Hr : reachable
                 (combine cssSelectorBuilder (new [5] ["#a"]) "+" (new [5] ["#b"]))).
  { apply reachable_combine; [apply reachable_facade|apply (Ha "a")|apply (Ha "b")]. }
  split; [exact Hr|].
  apply (proj2 (element_only_first _ "div" Hr)). reflexivity.
Defined.

(** X6. Once a pseudo-element is recorded on a reachable builder, every add
    method throws: [pseudoElement] the duplicate error, and each of the
    others the duplicate or the order error. *)
Theorem nothing_after_pseudoElement (b : t) (c : category) (value : string) :
  reachable b ->
  In 1 b.(callStack) ->
  (add c b value = Throw DuplicateCategoryError
   \/ add c b value = Throw OrderViolationError)
  /\ (c = PseudoElement -> add c b value = Throw DuplicateCategoryError).
Proof.
  intros Hr H1. destruct (reachable_recorded b Hr) as [Hs _].
  rewrite add_unfold.
  destruct (find (threshold c) (callStack b)) as [m|] eqn:E.
  - split.
    + destruct (singleton c && (m =? rank c)); [left|right]; reflexivity.
    + intros ->. unfold threshold in E. simpl in E.
      change (find (fun item => item <=? 1) (callStack b) = Some m) in E.
      rewrite (find_le_sorted 1 _ Hs H1) in E. injection E as <-. reflexivity.
  - exfalso. pose proof (find_none _ _ E 1 H1) as Hf.
    apply threshold_false in Hf. pose proof (rank_bounds c).
    destruct c; simpl in Hf; lia.
Qed.

Lemma nothing_after_pseudoElement_witness :
  reachable (new [6; 1] ["a"; "::after"])
  /\ In 1 (new [6; 1] ["a"; "::after"]).(callStack)
  /\ add Class (new [6; 1] ["a"; "::after"]) "b" = Throw OrderViolationError.
Proof.
  assert (Hr : reachable (new [6; 1] ["a"; "::after"])).
  { apply (reachable_chain [(Element, "a"); (PseudoElement, "after")]
             cssSelectorBuilder); [apply reachable_facade|reflexivity]. }
  assert (H1 : In 1 (new [6; 1] ["a"; "::after"]).(callStack)).
  { simpl. right. left. reflexivity. }
  split; [exact Hr|]. split; [exact H1|].
  destruct (proj1 (nothing_after_pseudoElement _ Class "b" Hr H1)) as [H|H];
    [discriminate H|exact H].
Defined.

(** ** The builder over the store *)

Lemma well_formed_represents (s : list Store.cell) (l : nat) :
  well_formed s -> Store.is_instance s l ->
  exists b, Store.represents s l b /\ reachable b.
Proof.
  intros Hwf (cs & ra & Hl).
  destruct (Hwf l cs ra Hl) as (_ & _ & b & Hcs & Hra & Hr).
  exists b. split; [|exact Hr]. exists cs, ra. repeat split; assumption.
Qed.

(** Cells added after the store keep it well formed when the one instance
    among them, if any, is well formed. *)
Lemma well_formed_extend (s ext : list Store.cell) :
  well_formed s ->
  (forall k cs ra,
      ext !! k = Some (Store.Instance cs ra) ->
      (cs < length s + k <= cs + 2)%nat
      /\ (ra < length s + k <= ra + 2)%nat
      /\ exists b,
           (s ++ ext) !! cs = Some (Store.NumArr b.(callStack))
           /\ (s ++ ext) !! ra = Some (Store.StrArr b.(resultsArr))
           /\ reachable b) ->
  well_formed (s ++ ext).
Proof.
  intros Hwf Hext l cs ra Hl.
  destruct (decide (l < length s)%nat) as [Hlt|Hge].
  - rewrite lookup_app_l in Hl by exact Hlt.
    destruct (Hwf l cs ra Hl) as (H1 & H2 & b & Hcs & Hra & Hr).
    split; [exact H1|]. split; [exact H2|].
    exists b. repeat split; try assumption; apply lookup_app_l_Some; assumption.
  - rewrite lookup_app_r in Hl by lia.
    destruct (Hext _ cs ra Hl) as (H1 & H2 & Hb).
    replace (length s + (l - length s))%nat with l in H1, H2 by lia.
    split; [exact H1|]. split; [exact H2|exact Hb].
Qed.

Lemma initial_well_formed : well_formed Store.initial.
Proof.
  intros l cs ra Hl.
  destruct l as [|[|[|l]]]; try discriminate Hl.
  injection Hl as <- <-. split; [lia|]. split; [lia|].
  exists cssSelectorBuilder. repeat split. apply reachable_facade.
Qed.

Lemma store_reachable_well_formed (s : list Store.cell) :
  store_reachable s -> well_formed s.
Proof.
  induction 1 as [|c this v s _ IH Hi|this l1 comb l2 s _ IH Hi H1 H2].
  - exact initial_well_formed.
  - destruct (well_formed_represents s this IH Hi) as (b & Hb & Hr).
    rewrite (add_simulation s this b c v Hb).
    destruct (add c b v) as [next|e] eqn:E; cbn [fst]; apply well_formed_extend;
      try exact IH; intros k cs ra Hk;
      destruct k as [|[|[|k]]]; try discriminate Hk.
    injection Hk as <- <-. split; [lia|]. split; [lia|].
    exists next. split; [apply lookup_first_new|].
    split; [rewrite lookup_new; reflexivity|].
    eapply reachable_add; eassumption.
  - destruct (well_formed_represents s this IH Hi) as (b & Hb & Hr).
    destruct (well_formed_represents s l1 IH H1) as (b1 & Hb1 & Hr1).
    destruct (well_formed_represents s l2 IH H2) as (b2 & Hb2 & Hr2).
    rewrite (combine_simulation s this l1 l2 b b1 b2 comb Hb Hb1 Hb2). cbn [fst].
    apply well_formed_extend; [exact IH|]. intros k cs ra Hk.
    destruct k as [|[|[|k]]]; try discriminate Hk.
    injection Hk as <- <-. split; [lia|]. split; [lia|].
    exists (combine b b1 comb b2). split; [rewrite lookup_new; reflexivity|].
    split; [apply lookup_first_new|]. apply reachable_combine; assumption.
Qed.

(** X7. In every store a program can be in, every instance holds the fields of
    a reachable builder. *)
Theorem instances_hold_reachable_builders (s : list Store.cell) (l : nat) :
  store_reachable s ->
  Store.is_instance s l ->
  exists b, Store.represents s l b /\ reachable b.
Proof.
  intros Hs Hl. apply well_formed_represents; [|exact Hl].
  apply store_reachable_well_formed. exact Hs.
Qed.

(** X8. In every store a program can be in, no array belongs to two
    instances: what one builder pushes to is out of reach of every
    other. *)
Theorem instances_share_no_array
  (s : list Store.cell) (l1 l2 cs1 ra1 cs2 ra2 : nat) :
  store_reachable s ->
  s !! l1 = Some (Store.Instance cs1 ra1) ->
  s !! l2 = Some (Store.Instance cs2 ra2) ->
  l1 <> l2 ->
  cs1 <> cs2 /\ ra1 <> ra2 /\ cs1 <> ra2 /\ ra1 <> cs2.
Proof.
  intros Hs H1 H2 Hne. apply store_reachable_well_formed in Hs.
  destruct (Hs l1 cs1 ra1 H1) as (Hc1 & Hr1 & b1 & Hcs1 & Hra1 & _).
  destruct (Hs l2 cs2 ra2 H2) as (Hc2 & Hr2 & b2 & Hcs2 & Hra2 & _).
  assert (Hdist : forall a1 a2,
             (a1 < l1 <= a1 + 2)%nat -> (a2 < l2 <= a2 + 2)%nat ->
             (exists c, s !! a1 = Some c /\ forall x y, c <> Store.Instance x y) ->
             (exists c, s !! a2 = Some c /\ forall x y, c <> Store.Instance x y) ->
             a1 <> a2).
  { intros a1 a2 Ha1 Ha2 (c1 & Hk1 & Hn1) (c2 & Hk2 & Hn2) ->.
    assert (Hcase : ((l1 = a2 + 1 /\ l2 = a2 + 2) \/ (l2 = a2 + 1 /\ l1 = a2 + 2))%nat)
      by lia.
    clear Hk1 Hn1 c1.
    destruct Hcase as [[-> ->]|[-> ->]].
    - destruct (Hs _ _ _ H2) as ((Hx1 & Hx2) & (Hy1 & Hy2) & b & Hcs & Hra & _).
      assert (Hcase : cs2 = (a2 + 1)%nat \/ ra2 = (a2 + 1)%nat \/ (cs2 = a2 /\ ra2 = a2))
        by lia.
      destruct Hcase as [->|[->|[-> ->]]]; congruence.
    - destruct (Hs _ _ _ H1) as ((Hx1 & Hx2) & (Hy1 & Hy2) & b & Hcs & Hra & _).
      assert (Hcase : cs1 = (a2 + 1)%nat \/ ra1 = (a2 + 1)%nat \/ (cs1 = a2 /\ ra1 = a2))
        by lia.
      destruct Hcase as [->|[->|[-> ->]]]; congruence. }
  assert (Hn : forall xs x y, Store.NumArr xs <> Store.Instance x y) by discriminate.
  assert (Hst : forall xs x y, Store.StrArr xs <> Store.Instance x y) by discriminate.
  repeat split; apply Hdist; try assumption; eexists; (split; [eassumption|]);
    auto.
Qed.

Lemma example_store_reachable : store_reachable example_store.
Proof.
  apply (store_add Id 11 "data"
           (Store.add Element 2 "table"
              (Store.add Id 5 "main"
                 (Store.add Element 2 "div" Store.initial).1).1).1).
  - apply (store_add Element 2 "table").
    + apply (store_add Id 5 "main").
      * apply (store_add Element 2 "div"); [apply store_initial|].
        exists 0%nat, 1%nat. reflexivity.
      * exists 3%nat, 4%nat. reflexivity.
    + exists 0%nat, 1%nat. reflexivity.
  - exists 9%nat, 10%nat. reflexivity.
Defined.

Lemma instances_hold_reachable_builders_witness :
  store_reachable example_store
  /\ Store.is_instance example_store 14
  /\ exists b, Store.represents example_store 14 b /\ reachable b.
Proof.
  assert (Hi : Store.is_instance example_store 14).
  { exists 12%nat, 13%nat. reflexivity. }
  split; [exact example_store_reachable|]. split; [exact Hi|].
  exact (instances_hold_reachable_builders example_store 14
           example_store_reachable Hi).
Defined.

Lemma instances_share_no_array_witness :
  example_store !! 8%nat = Some (Store.Instance 6 7)
  /\ example_store !! 14%nat = Some (Store.Instance 12 13)
  /\ 8%nat <> 14%nat
  /\ (6 <> 12 /\ 7 <> 13 /\ 6 <> 13 /\ 7 <> 12)%nat.
Proof.
  assert (Hne : 8%nat <> 14%nat) by discriminate.
  split; [reflexivity|]. split; [reflexivity|]. split; [exact Hne|].
  exact (instances_share_no_array example_store 8 14 6 7 12 13
           example_store_reachable eq_refl eq_refl Hne).
Defined.

Lemma represents_prefix (s s' : list Store.cell) (l : nat) (b : t) :
  s `prefix_of` s' -> Store.represents s l b -> Store.represents s' l b.
Proof. intros [ext ->]. apply represents_old. Qed.

(** X9. A builder can be used again: after any chain of calls on an instance,
    whether it returned or threw, a second chain on the same instance gives
    what it gives on the value the instance had from the start. *)
Theorem builder_can_be_reused
  (s : list Store.cell) (this : nat) (b : t)
  (calls1 calls2 : list (category * string)) :
  Store.represents s this b ->
  exists s2 r,
    Store.chain calls2 this (Store.chain calls1 this s).1 = (s2, r)
    /\ Store.represents s2 this b
    /\ match chain calls2 b with
       | Return last => exists l, r = Return l /\ Store.represents s2 l last
       | Throw e => r = Throw e
       end.
Proof.
  intros H.
  destruct (chain_simulation calls1 s this b H) as (s1 & r1 & Hrun1 & Hpre1 & _).
  rewrite Hrun1. cbn [fst].
  pose proof (represents_prefix s s1 this b Hpre1 H) as H1.
  destruct (chain_simulation calls2 s1 this b H1) as (s2 & r & Hrun2 & Hpre2 & Hres).
  exists s2, r. split; [exact Hrun2|]. split; [|exact Hres].
  exact (represents_prefix s1 s2 this b Hpre2 H1).
Qed.

Lemma builder_can_be_reused_witness :
  Store.represents example_store 8 (new [6; 5] ["div"; "#main"])
  /\ exists s2 r,
       Store.chain [(Class, "a")] 8
         (Store.chain [(Element, "x")] 8 example_store).1 = (s2, r)
       /\ exists l, r = Return l
            /\ Store.represents s2 l (new [6; 5; 4] ["div"; "#main"; ".a"]).
Proof.
  assert (H : Store.represents example_store 8 (new [6; 5] ["div"; "#main"])).
  { exists 6%nat, 7%nat. repeat split; reflexivity. }
  split; [exact H|].
  destruct (builder_can_be_reused example_store 8 _
              [(Element, "x")] [(Class, "a")] H) as (s2 & r & Hrun & _ & Hres).
  exists s2, r. split; [exact Hrun|exact Hres].
Defined.

(** X10. On an instance the methods throw nothing but their own two errors: a
    chain of calls never ends in a [TypeError]. *)
Theorem chain_throws_only_its_errors
  (s s' : list Store.cell) (this : nat) (b : t)
  (calls : list (category * string)) (e : exn) :
  Store.represents s this b ->
  Store.chain calls this s = (s', Throw e) ->
  e = DuplicateCategoryError \/ e = OrderViolationError.
Proof.
  intros H Hrun.
  destruct (chain_simulation calls s this b H) as (s1 & r & Hrun1 & _ & Hres).
  rewrite Hrun in Hrun1. injection Hrun1 as <- <-.
  destruct (chain calls b) as [last|e'] eqn:E.
  - destruct Hres as (l & Hl & _). discriminate Hl.
  - injection Hres as ->.
    destruct (chain_Throw _ _ _ E) as (ok & c & v & rest & b' & _ & _ & Hb).
    rewrite add_unfold in Hb.
    destruct (find (threshold c) (callStack b')) as [m|]; [|discriminate Hb].
    destruct (singleton c && (m =? rank c)); injection Hb as <-;
      [left|right]; reflexivity.
Qed.

Lemma chain_throws_only_its_errors_witness :
  Store.represents example_store 8 (new [6; 5] ["div"; "#main"])
  /\ (Store.chain [(PseudoClass, "a"); (Class, "b")] 8 example_store).2
     = Throw OrderViolationError
  /\ (OrderViolationError = DuplicateCategoryError
      \/ OrderViolationError = OrderViolationError).
Proof.
  assert (H : Store.represents example_store 8 (new [6; 5] ["div"; "#main"])).
  { exists 6%nat, 7%nat. repeat split; reflexivity. }
  split; [exact H|]. split; [reflexivity|].
  apply (chain_throws_only_its_errors example_store
           (Store.chain [(PseudoClass, "a"); (Class, "b")] 8 example_store).1
           8 _ [(PseudoClass, "a"); (Class, "b")] OrderViolationError H).
  reflexivity.
Defined.

(** ** [Rectangle], further *)

Lemma get_Rectangle_old {number : Type}
  (s : list (gmap string (Rect.value number))) (width height : number)
  (o : nat) (name : string) :
  (o < length s)%nat ->
  Rect.get (Rect.Rectangle width height s).1 o name = Rect.get s o name.
Proof.
  intros Hlt. unfold Rect.Rectangle. cbn [fst].
  rewrite !get_set_other by (intros [H _]; lia).
  unfold Rect.get. rewrite lookup_app_l by exact Hlt. reflexivity.
Qed.

(** X11. Two rectangles made one after the other each give their own area, and
    the function of the first, assigned as [getArea] of the second, still
    gives the area of the first: the arrow function keeps the [this] it was
    made with. *)
Theorem getArea_stays_bound {number : Type}
  (times : number -> number -> number) (nan : number)
  (s : list (gmap string (Rect.value number))) (w1 h1 w2 h2 : number) :
  let s1 := (Rect.Rectangle w1 h1 s).1 in
  let r1 := (Rect.Rectangle w1 h1 s).2 in
  let s2 := (Rect.Rectangle w2 h2 s1).1 in
  let r2 := (Rect.Rectangle w2 h2 s1).2 in
  let s3 := Rect.set r2 "getArea" (Rect.get s2 r1 "getArea") s2 in
  r1 <> r2
  /\ Rect.call times nan (Rect.get s2 r1 "getArea") s2 = Some (times w1 h1)
  /\ Rect.call times nan (Rect.get s2 r2 "getArea") s2 = Some (times w2 h2)
  /\ Rect.call times nan (Rect.get s3 r2 "getArea") s3 = Some (times w1 h1).
Proof.
  intros s1 r1 s2 r2 s3.
  destruct (Rectangle_fields s w1 h1) as (Hr1 & Hlen1 & Hw1 & Hh1 & Hf1).
  destruct (Rectangle_fields s1 w2 h2) as (Hr2 & Hlen2 & Hw2 & Hh2 & Hf2).
  fold s1 in Hlen1, Hw1, Hh1, Hf1. fold s2 in Hlen2, Hw2, Hh2, Hf2.
  subst s3 r1 r2. fold s1. rewrite Hr1, Hr2.
  assert (Hold : forall name,
             Rect.get s2 (length s) name = Rect.get s1 (length s) name).
  { intros name. unfold s2. apply get_Rectangle_old. exact Hlen1. }
  split; [lia|]. rewrite (Hold "getArea"), Hf1, Hf2.
  split; [|split].
  - cbn [Rect.call]. rewrite !Hold, Hw1, Hh1. reflexivity.
  - cbn [Rect.call]. rewrite Hw2, Hh2. reflexivity.
  - rewrite get_set_same by exact Hlen2. cbn [Rect.call].
    rewrite !get_set_other by (intros [H _]; lia).
    rewrite !Hold, Hw1, Hh1. reflexivity.
Qed.

(** ** [fromJSON] and [getJSON], further *)

Section JsonFacts.

Context {number : Type}.

Lemma assign_property_fresh (key : string) (v : Json.json number)
  (props : list (string * Json.json number)) :
  ~ In key props.*1 ->
  Json.assign_property key v props = props ++ [(key, v)].
Proof.
  induction props as [|[k old] props IH]; simpl; intros Hnot; [reflexivity|].
  destruct (String.eqb_spec k key) as [->|Hne]; [tauto|].
  rewrite IH by tauto. reflexivity.
Qed.

(** Properties with distinct new names are appended as they come. *)
Lemma assign_all_fresh (kvs props : list (string * Json.json number)) :
  NoDup kvs.*1 ->
  (forall k, In k kvs.*1 -> ~ In k props.*1) ->
  foldl (fun props kv => Json.assign_property kv.1 kv.2 props) props kvs
  = props ++ kvs.
Proof.
  revert props. induction kvs as [|[k v] kvs IH]; intros props Hnd Hfresh.
  - simpl. rewrite app_nil_r. reflexivity.
  - cbn [foldl fst snd]. simpl in Hnd. apply NoDup_cons in Hnd as [Hk Hnd].
    rewrite assign_property_fresh by (apply Hfresh; left; reflexivity).
    rewrite IH; [rewrite <- app_assoc; reflexivity|exact Hnd|].
    intros k' Hk' Hin. rewrite fmap_app in Hin. apply in_app_or in Hin as [Hin|Hin].
    + apply (Hfresh k'); [right; exact Hk'|exact Hin].
    + simpl in Hin. destruct Hin as [<-|[]]. apply Hk, list_elem_of_In, Hk'.
Qed.

Lemma index_keys_NoDup {A} (f : nat -> A -> Json.json number) (l : list A) :
  NoDup (imap (fun i x => (pretty i, f i x)) l).*1.
Proof.
  rewrite fmap_imap.
  rewrite (imap_ext _ (fun i _ => pretty i)) by reflexivity.
  rewrite imap_seq_0. apply NoDup_fmap_2; [apply _|apply NoDup_seq].
Qed.

Lemma fromJSON_run
  (JSON_parse : string -> completion (Json.json number))
  (s : list (Json.object number)) (proto : option nat) (text : string)
  (v : Json.json number) :
  JSON_parse text = Return v ->
  Json.fromJSON JSON_parse proto text s
  = (s ++ [Json.Object proto
             (foldl (fun props kv => Json.assign_property kv.1 kv.2 props)
                    [] (Json.own_enumerable v))],
     Return (length s)).
Proof.
  intros Hparse. unfold Json.fromJSON, Json.Object_create. rewrite Hparse.
  unfold Json.Object_assign. rewrite list_lookup_middle by reflexivity.
  cbn [Json.prototype Json.properties].
  rewrite insert_app_r_alt by lia. rewrite Nat.sub_diag. reflexivity.
Qed.

End JsonFacts.



(** X13. When the text parses to an array, [fromJSON(proto, text)] returns a new
    object with prototype [proto], not an array: its own properties are the
    items under their indices written in decimal, in order. *)
Theorem fromJSON_of_an_array {number : Type}
  (JSON_parse : string -> completion (Json.json number))
  (s : list (Json.object number)) (proto : option nat) (text : string)
  (items : list (Json.json number)) :
  JSON_parse text = Return (Json.JArray items) ->
  Json.fromJSON JSON_parse proto text s
  = (s ++ [Json.Object proto (imap (fun i item => (pretty i, item)) items)],
     Return (length s)).
Proof.
  intros Hparse. rewrite (fromJSON_run _ _ _ _ _ Hparse).
  cbn [Json.own_enumerable].
  rewrite assign_all_fresh; [reflexivity|apply index_keys_NoDup|].
  intros k _ [].
Qed.

Lemma fromJSON_of_an_array_witness :
  Json.parse_sample "[true]" = Return (Json.JArray [Json.JBoolean true])
  /\ Json.fromJSON Json.parse_sample None "[true]" []
     = ([Json.Object None [("0", Json.JBoolean true)]], Return 0%nat).
Proof.
  split; [reflexivity|].
  exact (fromJSON_of_an_array Json.parse_sample [] None "[true]"
           [Json.JBoolean true] eq_refl).
Defined.



